(** * Duplicate files finder: a shallow embedding of [find_duplicate_files.py]

    The development has three layers.

    - [Py]: the few Python notions the script relies on: exceptions
      (only [OSError] is ever caught), dynamically typed keys with their
      truth value, and a [dict] that remembers insertion order.
    - [OS]: the operating system as the script sees it, a directory tree
      with regular files, sockets, directories and symbolic links, and the
      calls [stat], [islink], [open], [read] and [walk] on it.
    - [Finder]: the functions of the script, one definition per function,
      in the order of the source. *)

From Equations Require Import Equations.
From Stdlib Require Import String ZArith Bool Arith Lia List.
From Stdlib.Strings Require Import Byte.
Import ListNotations.

Set Warnings "-register-all".

(* ===================================================================== *)
(** ** Python values, exceptions and dictionaries                         *)
(* ===================================================================== *)

Module Py.

(** The only exception class the script mentions. [FileNotFoundError],
    [PermissionError] and [IsADirectoryError] are subclasses of it. *)
Inductive exn : Set := OSError.

(** The outcome of evaluating a Python expression. *)
Inductive result (A : Type) : Type :=
| Ok (a : A)
| Raise (e : exn).

Arguments Ok {A} a.
Arguments Raise {A} e.

Definition bind {A B : Type} (c : result A) (k : A -> result B) : result B :=
  match c with
  | Ok a => k a
  | Raise e => Raise e
  end.

(** [try: c  except OSError: h]. *)
Definition try_except {A : Type} (c : result A) (h : result A) : result A :=
  match c with
  | Ok a => Ok a
  | Raise OSError => h
  end.

(** The values a grouping criterion takes in the script: [None], an [int]
    (a file size) or a [str] (a hexadecimal digest). *)
Inductive value : Set :=
| PyNone
| PyInt (z : Z)
| PyStr (s : string).

(** Truth value testing, as performed by [if criterion:]. *)
Definition truthy (v : value) : bool :=
  match v with
  | PyNone => false
  | PyInt z => negb (Z.eqb z 0)
  | PyStr s => negb (String.eqb s EmptyString)
  end.

Definition value_eq_dec (a b : value) : {a = b} + {a <> b}.
Proof.
  decide equality; [apply Z.eq_dec | apply string_dec].
Defined.

(** A [dict] whose values are lists, in insertion order of its keys. *)
Definition dict (A : Type) : Type := list (value * list A).

(** [d.setdefault(k, []).append(x)]. *)
Fixpoint setdefault_append {A : Type} (d : dict A) (k : value) (x : A)
  : dict A :=
  match d with
  | [] => [(k, [x])]
  | (k', g) :: tl =>
      if value_eq_dec k' k then (k', g ++ [x]) :: tl
      else (k', g) :: setdefault_append tl k x
  end.

(** [d.values()]. *)
Definition values {A : Type} (d : dict A) : list (list A) := map snd d.

Definition keys {A : Type} (d : dict A) : list value := map fst d.

End Py.

Import Py.

Declare Scope py_scope.
Notation "x <- c ;; k" := (bind c (fun x => k))
  (at level 61, c at next level, right associativity) : py_scope.
Open Scope py_scope.

(* ===================================================================== *)
(** ** The operating system                                               *)
(* ===================================================================== *)

Module OS.

(** An absolute, normalised path is the list of its components;
    [os.path.join root f] on such a path and a file name adds one. *)
Definition path : Type := list string.

Definition join (root : path) (f : string) : path := root ++ [f].

Definition path_eq_dec : forall a b : path, {a = b} + {a <> b} :=
  list_eq_dec string_dec.

(** What happens when a regular file is opened and read. *)
Inductive io_behaviour : Set :=
| Readable
| OpenFails              (* [open] raises, e.g. permission denied *)
| ReadFails (k : nat).   (* [k] reads succeed, the next one raises *)

(** What a name in a directory stands for: a regular file with its
    content, a socket (a file that is neither regular nor readable), a
    directory with the size [stat] reports and its entries in the order
    [scandir] lists them, or a symbolic link with its absolute target. *)
Inductive node : Type :=
| Reg (data : list byte) (io : io_behaviour)
| Sock
| Dir (size : Z) (entries : list (string * node))
| Lnk (target : path).

(** File type bits of [st_mode], from the [stat] module. *)
Definition S_IFREG : Z := 32768.   (* 0o100000 *)
Definition S_IFDIR : Z := 16384.   (* 0o040000 *)
Definition S_IFLNK : Z := 40960.   (* 0o120000 *)
Definition S_IFSOCK : Z := 49152.  (* 0o140000 *)

Definition S_IFMT (mode : Z) : Z := Z.land mode 61440. (* 0o170000 *)

Record stat_result : Set := { st_mode : Z; st_size : Z }.

(** The environment of one run: the tree under [/], the digest function of
    [hashlib] and the two path functions of [os.path] whose result depends
    on the process (home and working directory). *)
Record os : Type := {
  fs_root : node;
  md5_hexdigest : list byte -> string;
  expanduser : string -> string;
  abspath : string -> path
}.

Fixpoint lookup (name : string) (es : list (string * node)) : option node :=
  match es with
  | [] => None
  | (n, child) :: tl => if String.eqb n name then Some child else lookup name tl
  end.

(** Path resolution from the root. Symbolic links in the middle of a path
    are always followed, the last component only when [follow] is set;
    [links] bounds the number of links followed (ELOOP beyond). *)
Fixpoint resolve (rootn : node) (links : nat) (follow : bool) (p : path)
  {struct links} : option node :=
  (fix go (cur : node) (rest : path) {struct rest} : option node :=
     match rest with
     | [] => Some cur
     | c :: rest' =>
         match cur with
         | Dir _ es =>
             match lookup c es with
             | None => None
             | Some (Lnk t) =>
                 match rest', follow with
                 | [], false => Some (Lnk t)
                 | _, _ =>
                     match links with
                     | O => None
                     | S k => resolve rootn k follow (t ++ rest')
                     end
                 end
             | Some child => go child rest'
             end
         | _ => None
         end
     end) rootn p.

Definition SYMLOOP_MAX : nat := 40.

(** Proofs never look inside path resolution, closed terms still compute. *)
Global Opaque resolve.

Definition stat_of (n : node) : stat_result :=
  match n with
  | Reg data _ => {| st_mode := S_IFREG; st_size := Z.of_nat (length data) |}
  | Sock => {| st_mode := S_IFSOCK; st_size := 0 |}
  | Dir size _ => {| st_mode := S_IFDIR; st_size := size |}
  | Lnk t => {| st_mode := S_IFLNK; st_size := Z.of_nat (length t) |}
  end.

(** [os.stat]: follows symbolic links, raises when the path does not
    resolve. *)
Definition stat (w : os) (p : path) : result stat_result :=
  match resolve (fs_root w) SYMLOOP_MAX true p with
  | Some n => Ok (stat_of n)
  | None => Raise OSError
  end.

(** [os.path.getsize]. *)
Definition getsize (w : os) (p : path) : result Z :=
  st <- stat w p ;; Ok (st_size st).

(** [os.path.islink]: [lstat] and a test of the type bits, [False] when
    [lstat] fails. *)
Definition islink (w : os) (p : path) : bool :=
  match resolve (fs_root w) SYMLOOP_MAX false p with
  | Some (Lnk _) => true
  | _ => false
  end.

(** An open binary file: the bytes not read yet and, when the file is
    faulty, the number of [read] calls that still succeed. *)
Record file_object : Set := { unread : list byte; good_reads : option nat }.

(** [open(p, 'rb')]. *)
Definition open_rb (w : os) (p : path) : result file_object :=
  match resolve (fs_root w) SYMLOOP_MAX true p with
  | Some (Reg data Readable) =>
      Ok {| unread := data; good_reads := None |}
  | Some (Reg data (ReadFails k)) =>
      Ok {| unread := data; good_reads := Some k |}
  | _ => Raise OSError
  end.

Definition after_read (fp : file_object) (rest : list byte) : file_object :=
  {| unread := rest; good_reads := option_map Nat.pred (good_reads fp) |}.

(** [fp.read(n)]: up to [n] bytes, fewer only at the end of the file. *)
Definition read (fp : file_object) (n : nat)
  : result (list byte * file_object) :=
  match good_reads fp with
  | Some O => Raise OSError
  | _ => Ok (firstn n (unread fp), after_read fp (skipn n (unread fp)))
  end.

(** [fp.read()]: everything up to the end of the file. *)
Definition read_all (fp : file_object) : result (list byte * file_object) :=
  match good_reads fp with
  | Some O => Raise OSError
  | _ => Ok (unread fp, after_read fp [])
  end.

(** [DirEntry.is_dir()]: follows symbolic links. *)
Definition is_dir (w : os) (n : node) : bool :=
  match n with
  | Dir _ _ => true
  | Lnk t =>
      match resolve (fs_root w) SYMLOOP_MAX true t with
      | Some (Dir _ _) => true
      | _ => false
      end
  | _ => false
  end.

Definition is_symlink (n : node) : bool :=
  match n with
  | Lnk _ => true
  | _ => false
  end.

Definition dirnames (w : os) (es : list (string * node)) : list string :=
  map fst (filter (fun e => is_dir w (snd e)) es).

Definition filenames (w : os) (es : list (string * node)) : list string :=
  map fst (filter (fun e => negb (is_dir w (snd e))) es).

(** [os.walk(top)] below a directory node, top-down and with
    [followlinks=False]: the triple of the directory itself, then the walk
    of every entry of [dirs] that is not a symbolic link. *)
Fixpoint walk_node (w : os) (top : path) (n : node) {struct n}
  : list (path * list string * list string) :=
  match n with
  | Dir _ es =>
      (top, dirnames w es, filenames w es)
      :: flat_map
           (fun e =>
              if is_dir w (snd e) && negb (is_symlink (snd e))
              then walk_node w (join top (fst e)) (snd e)
              else [])
           es
  | _ => []
  end.

(** [os.walk(top)]: a [top] that cannot be listed yields nothing
    ([onerror] is [None]). *)
Definition walk (w : os) (top : path)
  : list (path * list string * list string) :=
  match resolve (fs_root w) SYMLOOP_MAX true top with
  | Some n => walk_node w top n
  | None => []
  end.

End OS.

Import OS.

(* ===================================================================== *)
(** ** The script                                                         *)
(* ===================================================================== *)

Module Finder.

Definition BUFSIZE : nat := 8 * 1024.

(** Keeps the equation of a scrutinee in the context of a branch. *)
Definition inspect {A : Type} (a : A) : {b : A | a = b} :=
  exist _ a eq_refl.

(** *** Waypoint 2 *)

Definition scan_files (w : os) (path : string) : list OS.path :=
  filter (fun x => negb (islink w x))
    (flat_map (fun t => let '(root, _, files) := t in map (join root) files)
       (walk w (abspath w (expanduser w path)))).

(** The [for] loop of [group_files]; an exception of [func] leaves it. *)
Fixpoint group_files_loop (func : path -> result value)
  (file_path_names : list path) (groups : dict path)
  : result (dict path) :=
  match file_path_names with
  | [] => Ok groups
  | filename :: tl =>
      criterion <- func filename ;;
      if truthy criterion
      then group_files_loop func tl (setdefault_append groups criterion filename)
      else group_files_loop func tl groups
  end.

Definition group_files (file_path_names : list path)
  (func : path -> result value) : result (list (list path)) :=
  groups <- group_files_loop func file_path_names [] ;;
  Ok (filter (fun group => 1 <? length group) (values groups)).

(** *** Waypoint 3 *)

Definition group_files_by_size (w : os) (file_path_names : list path)
  : result (list (list path)) :=
  group_files file_path_names (fun p => n <- getsize w p ;; Ok (PyInt n)).

(** *** Waypoint 4 *)

Definition get_file_checksum (w : os) (file_path : path) : result value :=
  try_except
    (file <- open_rb w file_path ;;
     content <- read_all file ;;
     Ok (PyStr (md5_hexdigest w (fst content))))
    (Ok PyNone).

(** *** Waypoint 5 *)

Definition group_files_by_checksum (w : os) (file_path_names : list path)
  : result (list (list path)) :=
  group_files file_path_names (get_file_checksum w).

(** *** Waypoint 6 *)

(** The [for] loop of [find_duplicate_files]. *)
Fixpoint find_duplicate_files_loop (w : os) (size_groups : list (list path))
  (groups : list (list path)) : result (list (list path)) :=
  match size_groups with
  | [] => Ok groups
  | group :: tl =>
      by_checksum <- group_files_by_checksum w group ;;
      find_duplicate_files_loop w tl (groups ++ by_checksum)
  end.

Definition find_duplicate_files (w : os) (file_path_names : list path)
  : result (list (list path)) :=
  size_groups <- group_files_by_size w file_path_names ;;
  find_duplicate_files_loop w size_groups [].

(** *** Waypoint 8 *)

Definition _sig (st : stat_result) : Z * Z :=
  (S_IFMT (st_mode st), st_size st).

Definition bytes_eq_dec : forall a b : list byte, {a = b} + {a <> b} :=
  list_eq_dec Byte.byte_eq_dec.

(** The [while True] loop of [_do_compare]. It returns as soon as the two
    chunks differ or the first one is empty, so every further turn has
    consumed at least one byte of the first file. *)
Equations? _do_compare_loop (bufsize : nat) (fp1 fp2 : file_object)
  : result bool by wf (length (unread fp1)) lt :=
  _do_compare_loop bufsize fp1 fp2 with inspect (read fp1 bufsize) := {
    | exist _ (Raise e) _ := Raise e;
    | exist _ (Ok (b1, fp1')) eq1 with read fp2 bufsize := {
        | Raise e := Raise e;
        | Ok (b2, fp2') with bytes_eq_dec b1 b2 := {
            | right _ := Ok false;
            | left _ with inspect b1 := {
                | exist _ [] _ := Ok true;
                | exist _ (_ :: _) eq2 := _do_compare_loop bufsize fp1' fp2'
              }
          }
      }
  }.
Proof.
  unfold read in eq1.
  assert (Hr : b :: l = firstn bufsize (unread fp1)
               /\ unread fp1' = skipn bufsize (unread fp1)).
  { destruct (good_reads fp1) as [[|k]|]; inversion eq1; auto. }
  destruct Hr as [Hb ->].
  destruct bufsize as [|n]; [discriminate|].
  destruct (unread fp1) as [|x u]; [discriminate|].
  simpl. pose proof (length_skipn n u). lia.
Qed.

Definition _do_compare (w : os) (file1 file2 : path) : result bool :=
  let bufsize := BUFSIZE in
  try_except
    (fp1 <- open_rb w file1 ;;
     fp2 <- open_rb w file2 ;;
     _do_compare_loop bufsize fp1 fp2)
    (Ok false).

Definition compare_files (w : os) (f1 f2 : path) : result bool :=
  st1 <- stat w f1 ;;
  let s1 := _sig st1 in
  st2 <- stat w f2 ;;
  let s2 := _sig st2 in
  if negb (fst s1 =? S_IFREG)%Z || negb (fst s2 =? S_IFREG)%Z then Ok false
  else if negb (snd s1 =? snd s2)%Z then Ok false
  else _do_compare w f1 f2.

(** The [for] loop of [find_duplicate_files_by_comparing]: the files among
    [rest] that compare equal to [current] are appended to the group. *)
Fixpoint compare_with (w : os) (current : path) (rest : list path)
  (group_duplicate_files : list path) : result (list path) :=
  match rest with
  | [] => Ok group_duplicate_files
  | filename :: tl =>
      same <- compare_files w current filename ;;
      compare_with w current tl
        (if same then group_duplicate_files ++ [filename]
         else group_duplicate_files)
  end.

(** [[e for e in file_path_names if e not in set(group)]]. *)
Definition remove_group (file_path_names group : list path) : list path :=
  filter (fun e => if in_dec path_eq_dec e group then false else true)
    file_path_names.

(** The [while file_path_names] loop. The group always holds [current],
    the head of the working list, so the list gets shorter every turn. *)
Equations? find_duplicate_files_by_comparing_loop (w : os)
  (file_path_names : list path) (groups : list (list path))
  : result (list (list path)) by wf (length file_path_names) lt :=
  find_duplicate_files_by_comparing_loop w [] groups := Ok groups;
  find_duplicate_files_by_comparing_loop w (current :: tl) groups
    with inspect (compare_with w current tl [current]) := {
    | exist _ (Raise e) _ := Raise e;
    | exist _ (Ok group_duplicate_files) eq1 :=
        find_duplicate_files_by_comparing_loop w
          (remove_group (current :: tl) group_duplicate_files)
          (if 1 <? length group_duplicate_files
           then groups ++ [group_duplicate_files]
           else groups)
  }.
Proof.
  assert (Hin : forall rest g g',
             compare_with w current rest g = Ok g' ->
             In current g -> In current g').
  { induction rest as [|f rest IH]; simpl; intros g g' H Hg.
    - inversion H; subst; assumption.
    - destruct (compare_files w current f) as [[|]|]; simpl in H;
        try discriminate; apply IH in H; auto using in_or_app. }
  specialize (Hin _ _ _ eq1 (or_introl eq_refl)).
  unfold remove_group. simpl.
  destruct (in_dec path_eq_dec current group_duplicate_files); [|contradiction].
  match goal with
  | |- context [filter ?f tl] => pose proof (filter_length_le f tl)
  end.
  lia.
Qed.

Definition find_duplicate_files_by_comparing (w : os)
  (file_path_names : list path) : result (list (list path)) :=
  find_duplicate_files_by_comparing_loop w file_path_names [].

(** *** The two pipelines of [main] *)

Definition main_hash (w : os) (path : string) : result (list (list OS.path)) :=
  find_duplicate_files w (scan_files w path).

Definition main_compare (w : os) (path : string)
  : result (list (list OS.path)) :=
  find_duplicate_files_by_comparing w (scan_files w path).

End Finder.

Import Finder.

(* ===================================================================== *)
(** ** Vocabulary of the statements                                       *)
(* ===================================================================== *)

Module Spec.

(** [x] has the truthy key [k] under [func]. *)
Definition has_key (func : path -> result value) (k : value) (x : path)
  : bool :=
  match func x with
  | Ok k' => if value_eq_dec k' k then truthy k' else false
  | Raise _ => false
  end.

(** What a dictionary built by [group_files] from the items [l] looks
    like: one entry per truthy key met, holding the items of that key in
    the order of [l]. *)
Record grouped (func : path -> result value) (l : list path)
  (d : dict path) : Prop := {
  grouped_keys : NoDup (keys d);
  grouped_exact : forall k g, In (k, g) d -> g = filter (has_key func k) l;
  grouped_complete :
    forall x k, In x l -> has_key func k x = true -> In k (keys d)
}.

(** The key functions of the two groupings. *)
Definition size_key (w : os) (p : path) : result value :=
  n <- getsize w p ;; Ok (PyInt n).

(** [compare_files] answered [True]. *)
Definition same_as (w : os) (current filename : path) : bool :=
  match compare_files w current filename with
  | Ok true => true
  | _ => false
  end.

(** [x] and [y] are members of one group of [groups]. *)
Definition together (groups : list (list path)) (x y : path) : Prop :=
  exists g, In g groups /\ In x g /\ In y g.

(** The number of groups that hold [x]. *)
Definition occurrences (groups : list (list path)) (x : path) : nat :=
  length (filter (fun g => if in_dec path_eq_dec x g then true else false)
            groups).

(** The regular file at [p], with its content and behaviour. *)
Definition regular_file (w : os) (p : path) (data : list byte)
  (io : io_behaviour) : Prop :=
  resolve (fs_root w) SYMLOOP_MAX true p = Some (Reg data io).

(** The number of [read] calls a complete comparison of two files of [n]
    bytes issues on each of them: one per chunk, and the empty one that
    ends the loop. *)
Definition reads_needed (bufsize n : nat) : nat :=
  S ((n + bufsize - 1) / bufsize).

(** The file object still delivers the reads a full comparison needs. *)
Definition enough (bufsize : nat) (fp : file_object) : Prop :=
  match good_reads fp with
  | None => True
  | Some k => reads_needed bufsize (length (unread fp)) <= k
  end.

(** The file delivers [n] reads without an error. *)
Definition delivers (io : io_behaviour) (n : nat) : bool :=
  match io with
  | Readable => true
  | OpenFails => false
  | ReadFails k => n <=? k
  end.

(** [rel] leads from directory [n] down to [n'] through directories only,
    never through a symbolic link. *)
Inductive descends : node -> path -> node -> Prop :=
| descends_here : forall n, descends n [] n
| descends_step : forall size es name child rel n',
    In (name, child) es ->
    is_symlink child = false ->
    descends child rel n' ->
    descends (Dir size es) (name :: rel) n'.

End Spec.

Import Spec.

(* ===================================================================== *)
(** ** Reference functions                                                *)
(* ===================================================================== *)

Module Reference.

(** The truthy keys of the items of [l] that are not in [seen] yet, added
    to [seen] in the order in which the items bring them. *)
Fixpoint first_keys (func : path -> result value) (l : list path)
  (seen : list value) : list value :=
  match l with
  | [] => seen
  | x :: tl =>
      match func x with
      | Ok k =>
          if truthy k
          then if in_dec value_eq_dec k seen
               then first_keys func tl seen
               else first_keys func tl (seen ++ [k])
          else first_keys func tl seen
      | Raise _ => first_keys func tl seen
      end
  end.

(** Grouping written as a comprehension: for every truthy key, in the
    order of its first item, the items of that key in the order of the
    list; the lists of one item are left out. *)
Definition groups_of (func : path -> result value) (l : list path)
  : list (list path) :=
  filter (fun group => 1 <? length group)
    (map (fun k => filter (has_key func k) l) (first_keys func l [])).

(** What [open] followed by [read()] delivers: the content of a regular
    file that can be opened and whose first read succeeds. *)
Definition readable_content (w : os) (p : path) : option (list byte) :=
  match resolve (fs_root w) SYMLOOP_MAX true p with
  | Some (Reg data Readable) => Some data
  | Some (Reg data (ReadFails (S _))) => Some data
  | _ => None
  end.

End Reference.

Import Reference.

(* ===================================================================== *)
(** ** Sample trees                                                       *)
(* ===================================================================== *)

Module Samples.

Local Open Scope string_scope.

Definition hello : list byte := [x68; x65; x6c; x6c; x6f].
Definition world : list byte := [x77; x6f; x72; x6c; x64].

(** Stands for [hashlib.md5(...).hexdigest()] in the samples: it tells
    any two contents apart and is never the empty string. *)
Definition sample_digest (data : list byte) : string :=
  "d" ++ string_of_list_byte data.

(** A process whose working directory is [/]: the relative name [d] is
    the directory [/d]. *)
Definition sample_os (root : node) : os :=
  {| fs_root := root;
     md5_hexdigest := sample_digest;
     expanduser := fun s => s;
     abspath := fun s => [s] |}.

(** [/d] with two copies of one text, a third text, and a symbolic link
    to the first copy. *)
Definition hello_tree : node :=
  Dir 4096
    [("d", Dir 4096
        [("a.txt", Reg hello Readable);
         ("b.txt", Reg hello Readable);
         ("c.txt", Reg world Readable);
         ("link.txt", Lnk ["d"; "a.txt"])])].

(** [/d] with two empty files and nothing else. *)
Definition empty_tree : node :=
  Dir 4096
    [("d", Dir 4096
        [("e1", Reg [] Readable);
         ("e2", Reg [] Readable)])].

(** [/d] with a little of everything: copies in a subdirectory, empty
    files, a link to a file, a link to a directory, a socket, and two
    copies that cannot be read. *)
Definition mixed_tree : node :=
  Dir 4096
    [("d", Dir 4096
        [("a.txt", Reg hello Readable);
         ("b.txt", Reg hello Readable);
         ("c.txt", Reg world Readable);
         ("long.txt", Reg (hello ++ world) Readable);
         ("e1", Reg [] Readable);
         ("e2", Reg [] Readable);
         ("link.txt", Lnk ["d"; "a.txt"]);
         ("sub", Dir 4096 [("x.txt", Reg hello Readable)]);
         ("sublink", Lnk ["d"; "sub"]);
         ("sock", Sock);
         ("locked.txt", Reg hello OpenFails);
         ("faulty.txt", Reg hello (ReadFails 0))])].

Definition a_txt : path := ["d"; "a.txt"].
Definition b_txt : path := ["d"; "b.txt"].
Definition c_txt : path := ["d"; "c.txt"].
Definition long_txt : path := ["d"; "long.txt"].
Definition e1 : path := ["d"; "e1"].
Definition e2 : path := ["d"; "e2"].
Definition x_txt : path := ["d"; "sub"; "x.txt"].
Definition link_txt : path := ["d"; "link.txt"].
Definition locked_txt : path := ["d"; "locked.txt"].
Definition faulty_txt : path := ["d"; "faulty.txt"].
Definition gone : path := ["d"; "gone"].

End Samples.

(* ===================================================================== *)
(** ** Exceptions                                                         *)
(* ===================================================================== *)

Section Results.

Context {A B : Type}.

Lemma bind_ok (c : result A) (k : A -> result B) (b : B) :
  bind c k = Ok b -> exists a, c = Ok a /\ k a = Ok b.
Proof.
  destruct c as [a|e]; simpl; [eauto | discriminate].
Qed.

Lemma bind_raise (c : result A) (k : A -> result B) (e : exn) :
  bind c k = Raise e ->
  c = Raise e \/ exists a, c = Ok a /\ k a = Raise e.
Proof.
  destruct c as [a|e']; simpl; intros H; [eauto | left; congruence].
Qed.

Lemma try_except_ok_default (c : result A) (a : A) :
  exists a', try_except c (Ok a) = Ok a'.
Proof.
  destruct c as [a'|[]]; simpl; eauto.
Qed.

End Results.

(* ===================================================================== *)
(** ** The dictionary of [group_files]                                    *)
(* ===================================================================== *)

Section Dict.

Context {A : Type}.
Implicit Types (d : dict A) (k : value) (x : A).

Lemma keys_setdefault_append d k x :
  keys (setdefault_append d k x)
  = if in_dec value_eq_dec k (keys d) then keys d else keys d ++ [k].
Proof.
  unfold keys.
  induction d as [|[k0 g0] tl IH]; simpl; [reflexivity|].
  destruct (value_eq_dec k0 k) as [->|Hne]; simpl.
  - reflexivity.
  - rewrite IH.
    destruct (in_dec value_eq_dec k (map fst tl)); reflexivity.
Qed.

Lemma setdefault_append_key d k x : In k (keys (setdefault_append d k x)).
Proof.
  rewrite keys_setdefault_append.
  destruct (in_dec value_eq_dec k (keys d)); [assumption|].
  apply in_or_app; right; left; reflexivity.
Qed.

Lemma setdefault_append_keeps d k x k' :
  In k' (keys d) -> In k' (keys (setdefault_append d k x)).
Proof.
  rewrite keys_setdefault_append.
  destruct (in_dec value_eq_dec k (keys d)); auto using in_or_app.
Qed.

Lemma setdefault_append_nodup d k x :
  NoDup (keys d) -> NoDup (keys (setdefault_append d k x)).
Proof.
  intros Hd. rewrite keys_setdefault_append.
  destruct (in_dec value_eq_dec k (keys d)) as [Hin|Hout]; [assumption|].
  apply NoDup_app; [assumption | |].
  - constructor; [intros [] | constructor].
  - intros a Ha [<-|[]]. contradiction.
Qed.

(** An entry of the updated dictionary is an untouched entry of another
    key, or the entry of [k] with [x] appended. *)
Lemma setdefault_append_in d k x k' g' :
  NoDup (keys d) ->
  In (k', g') (setdefault_append d k x) ->
  (k' <> k /\ In (k', g') d)
  \/ (k' = k /\ exists g, g' = g ++ [x]
                 /\ (In (k, g) d \/ (g = [] /\ ~ In k (keys d)))).
Proof.
  induction d as [|[k0 g0] tl IH]; simpl; intros Hd Hin.
  - destruct Hin as [Heq|[]]. inversion Heq; subst.
    right; split; [reflexivity|]. exists []; auto.
  - inversion Hd as [|? ? Hk0 Htl]; subst.
    destruct (value_eq_dec k0 k) as [->|Hne].
    + destruct Hin as [Heq|Hin].
      * inversion Heq; subst. right; split; [reflexivity|].
        exists g0; auto.
      * left; split; [|auto].
        intros ->. apply Hk0. apply (in_map fst) in Hin. exact Hin.
    + destruct Hin as [Heq|Hin].
      * inversion Heq; subst. left; auto.
      * destruct (IH Htl Hin) as [[Hk Hold]|[-> [g [-> Hg]]]].
        -- left; auto.
        -- right; split; [reflexivity|]. exists g; split; [reflexivity|].
           destruct Hg as [Hg|[-> Hout]]; [auto|].
           right; split; [reflexivity|]. intros [Heq|Hk]; auto.
Qed.

End Dict.

(* ===================================================================== *)
(** ** [group_files]                                                      *)
(* ===================================================================== *)

Section ListFacts.

Context {A : Type}.

Lemma filter_snoc (f : A -> bool) (l : list A) (x : A) :
  filter f (l ++ [x]) = filter f l ++ (if f x then [x] else []).
Proof.
  rewrite filter_app. simpl. destruct (f x); reflexivity.
Qed.

Lemma filter_none (f : A -> bool) (l : list A) :
  (forall x, In x l -> f x = false) -> filter f l = [].
Proof.
  induction l as [|a l IH]; simpl; intros H; [reflexivity|].
  rewrite (H a (or_introl eq_refl)). auto.
Qed.

Lemma two_members (l : list A) (x y : A) :
  In x l -> In y l -> x <> y -> 2 <= length l.
Proof.
  destruct l as [|a [|b l]]; simpl; intros Hx Hy Hne.
  - contradiction.
  - destruct Hx as [<-|[]], Hy as [<-|[]]. congruence.
  - lia.
Qed.

End ListFacts.

Section GroupFiles.

Variable func : path -> result value.

Lemma has_key_inv k x :
  has_key func k x = true -> func x = Ok k /\ truthy k = true.
Proof.
  unfold has_key. destruct (func x) as [k'|e]; [|discriminate].
  destruct (value_eq_dec k' k) as [->|]; [auto | discriminate].
Qed.

Lemma has_key_intro k x :
  func x = Ok k -> truthy k = true -> has_key func k x = true.
Proof.
  unfold has_key. intros -> Hk.
  destruct (value_eq_dec k k); [assumption | contradiction].
Qed.

Lemma has_key_unique k k' x :
  has_key func k x = true -> has_key func k' x = true -> k = k'.
Proof.
  intros H H'. apply has_key_inv in H, H'.
  destruct H as [H _], H' as [H' _]. congruence.
Qed.

Lemma grouped_nil : grouped func [] [].
Proof.
  split; simpl; try contradiction. constructor.
Qed.

(** An item without a truthy key leaves the dictionary as it is. *)
Lemma grouped_skip l d x :
  grouped func l d ->
  (forall k, has_key func k x = false) ->
  grouped func (l ++ [x]) d.
Proof.
  intros [Hk He Hc] Hx. split; [assumption | |].
  - intros k g Hin. rewrite filter_snoc, Hx, app_nil_r. auto.
  - intros y k Hy Hkey. apply in_app_or in Hy.
    destruct Hy as [Hy|[<-|[]]]; [eauto | congruence].
Qed.

(** An item with the truthy key [k] joins the entry of [k]. *)
Lemma grouped_add l d x k :
  grouped func l d ->
  func x = Ok k -> truthy k = true ->
  grouped func (l ++ [x]) (setdefault_append d k x).
Proof.
  intros [Hk He Hc] Hf Ht.
  assert (Hx : has_key func k x = true) by (apply has_key_intro; assumption).
  split.
  - apply setdefault_append_nodup; assumption.
  - intros k' g' Hin. rewrite filter_snoc.
    destruct (setdefault_append_in _ _ _ _ _ Hk Hin)
      as [[Hne Hold]|[-> [g [-> Hg]]]].
    + destruct (has_key func k' x) eqn:Hk'.
      * exfalso. apply Hne. eapply has_key_unique; eassumption.
      * rewrite app_nil_r. auto.
    + rewrite Hx. f_equal.
      destruct Hg as [Hg|[-> Hout]]; [auto|].
      symmetry. apply filter_none. intros y Hy.
      destruct (has_key func k y) eqn:Hky; [|reflexivity].
      exfalso. eauto.
  - intros y k' Hy Hkey. apply in_app_or in Hy.
    destruct Hy as [Hy|[<-|[]]].
    + apply setdefault_append_keeps. eauto.
    + rewrite (has_key_unique _ _ _ Hkey Hx). apply setdefault_append_key.
Qed.

Lemma falsy_no_key x k :
  func x = Ok k -> truthy k = false -> forall k', has_key func k' x = false.
Proof.
  intros Hf Ht k'. destruct (has_key func k' x) eqn:H; [|reflexivity].
  apply has_key_inv in H. destruct H as [H1 H2]. congruence.
Qed.

(** The loop keeps the dictionary in step with the items gone through. *)
Lemma group_files_loop_grouped l :
  forall done d d',
    grouped func done d ->
    group_files_loop func l d = Ok d' ->
    grouped func (done ++ l) d'.
Proof.
  induction l as [|x l IH]; simpl; intros done d d' Hd Hloop.
  - inversion Hloop; subst. rewrite app_nil_r. assumption.
  - apply bind_ok in Hloop. destruct Hloop as [k [Hk Hloop]].
    replace (done ++ x :: l) with ((done ++ [x]) ++ l)
      by (rewrite <- app_assoc; reflexivity).
    destruct (truthy k) eqn:Ht; eapply IH; try eassumption.
    + apply grouped_add; assumption.
    + apply grouped_skip; [assumption|]. eapply falsy_no_key; eassumption.
Qed.

(** The loop is left by an exception exactly when [func] raises one. *)
Lemma group_files_loop_raise l :
  forall d x e,
    In x l -> func x = Raise e ->
    exists e', group_files_loop func l d = Raise e'.
Proof.
  induction l as [|y l IH]; simpl; intros d x e Hin Hx; [contradiction|].
  destruct (func y) as [k|e'] eqn:Hy; simpl; [|eauto].
  destruct Hin as [->|Hin]; [congruence|].
  destruct (truthy k); eapply IH; eassumption.
Qed.

Lemma group_files_loop_total l :
  forall d,
    (forall x, In x l -> exists k, func x = Ok k) ->
    exists d', group_files_loop func l d = Ok d'.
Proof.
  induction l as [|y l IH]; simpl; intros d Hl; [eauto|].
  destruct (Hl y (or_introl eq_refl)) as [k ->]. simpl.
  destruct (truthy k); apply IH; auto.
Qed.

Lemma group_files_grouped l gs :
  group_files l func = Ok gs ->
  exists d, grouped func l d
            /\ gs = filter (fun group => 1 <? length group) (values d).
Proof.
  unfold group_files. intros H. apply bind_ok in H.
  destruct H as [d [Hloop Hgs]]. inversion Hgs; subst.
  exists d; split; [|reflexivity].
  apply (group_files_loop_grouped l [] [] d grouped_nil Hloop).
Qed.

Lemma group_files_raise l x e :
  In x l -> func x = Raise e -> exists e', group_files l func = Raise e'.
Proof.
  intros Hin Hx. unfold group_files.
  destruct (group_files_loop_raise l [] x e Hin Hx) as [e' ->]. simpl. eauto.
Qed.

Lemma group_files_total l :
  (forall x, In x l -> exists k, func x = Ok k) ->
  exists gs, group_files l func = Ok gs.
Proof.
  intros Hl. unfold group_files.
  destruct (group_files_loop_total l [] Hl) as [d ->]. simpl. eauto.
Qed.

(** Every group is the list of all items of one truthy key, and has two
    members or more. *)
Lemma group_files_group l gs g :
  group_files l func = Ok gs -> In g gs ->
  exists k, g = filter (has_key func k) l /\ 2 <= length g.
Proof.
  intros H Hg. apply group_files_grouped in H.
  destruct H as [d [[Hk He Hc] ->]].
  apply filter_In in Hg. destruct Hg as [Hg Hlen].
  apply Nat.ltb_lt in Hlen. unfold values in Hg.
  apply in_map_iff in Hg. destruct Hg as [[k g'] [<- Hin]].
  simpl in *. exists k; split; [apply He; assumption | lia].
Qed.

Lemma group_files_member l gs g x :
  group_files l func = Ok gs -> In g gs -> In x g ->
  In x l /\ exists k, func x = Ok k /\ truthy k = true
                      /\ g = filter (has_key func k) l.
Proof.
  intros H Hg Hx.
  destruct (group_files_group l gs g H Hg) as [k [-> _]].
  apply filter_In in Hx. destruct Hx as [Hx Hk].
  apply has_key_inv in Hk. destruct Hk as [Hf Ht].
  split; [assumption|]. exists k; auto.
Qed.

(** Two different items of one truthy key end up in one group. *)
Lemma group_files_together l gs x y k :
  group_files l func = Ok gs ->
  In x l -> In y l -> x <> y ->
  func x = Ok k -> func y = Ok k -> truthy k = true ->
  together gs x y.
Proof.
  intros H Hx Hy Hne Hfx Hfy Ht.
  apply group_files_grouped in H. destruct H as [d [[Hk He Hc] ->]].
  pose proof (has_key_intro _ _ Hfx Ht) as Hkx.
  pose proof (has_key_intro _ _ Hfy Ht) as Hky.
  pose proof (Hc x k Hx Hkx) as Hin. unfold keys in Hin.
  apply in_map_iff in Hin. destruct Hin as [[k' g] [Hfst Hin]].
  simpl in Hfst; subst k'.
  pose proof (He k g Hin) as Hg.
  assert (Hxg : In x g) by (rewrite Hg; apply filter_In; auto).
  assert (Hyg : In y g) by (rewrite Hg; apply filter_In; auto).
  exists g; repeat split; try assumption.
  apply filter_In; split.
  - unfold values. apply in_map_iff. exists (k, g); auto.
  - apply Nat.ltb_lt. pose proof (two_members g x y Hxg Hyg Hne). lia.
Qed.

End GroupFiles.

(* ===================================================================== *)
(** ** [stat], [open] and the chunked comparison                          *)
(* ===================================================================== *)

Lemma BUFSIZE_pos : 0 < BUFSIZE.
Proof.
  unfold BUFSIZE. lia.
Qed.

Lemma reads_needed_empty bufsize : 0 < bufsize -> reads_needed bufsize 0 = 1.
Proof.
  intros Hb. unfold reads_needed. f_equal.
  apply Nat.div_small. lia.
Qed.

(** One chunk less to read after a successful read of a non-empty file. *)
Lemma reads_needed_step bufsize n :
  0 < bufsize -> 0 < n ->
  reads_needed bufsize n = S (reads_needed bufsize (n - bufsize)).
Proof.
  intros Hb Hn. unfold reads_needed. f_equal.
  destruct (le_lt_dec bufsize n) as [Hle|Hlt].
  - replace (n + bufsize - 1) with ((n - bufsize + bufsize - 1) + 1 * bufsize)
      by lia.
    rewrite Nat.div_add by lia. lia.
  - replace (n - bufsize) with 0 by lia. simpl.
    rewrite (Nat.div_small (bufsize - 1)) by lia.
    replace (n + bufsize - 1) with ((n - 1) + 1 * bufsize) by lia.
    rewrite Nat.div_add by lia.
    rewrite Nat.div_small by lia. reflexivity.
Qed.

Section Reading.

Lemma read_ok fp n b fp' :
  read fp n = Ok (b, fp') ->
  b = firstn n (unread fp)
  /\ unread fp' = skipn n (unread fp)
  /\ good_reads fp' = option_map Nat.pred (good_reads fp)
  /\ good_reads fp <> Some 0.
Proof.
  unfold read. destruct (good_reads fp) as [[|k]|] eqn:Hg; intros H;
    inversion H; subst; simpl; rewrite ?Hg; repeat split; congruence.
Qed.

Lemma read_raise fp n e :
  read fp n = Raise e -> good_reads fp = Some 0.
Proof.
  unfold read. destruct (good_reads fp) as [[|k]|]; congruence.
Qed.

Lemma firstn_empty {A : Type} (n : nat) (l : list A) :
  0 < n -> firstn n l = [] -> l = [].
Proof.
  destruct n; [lia|]. destruct l; [reflexivity | discriminate].
Qed.

Lemma _do_compare_loop_unfold bufsize fp1 fp2 :
  _do_compare_loop bufsize fp1 fp2 =
  match read fp1 bufsize with
  | Raise e => Raise e
  | Ok (b1, fp1') =>
      match read fp2 bufsize with
      | Raise e => Raise e
      | Ok (b2, fp2') =>
          if bytes_eq_dec b1 b2
          then match b1 with
               | [] => Ok true
               | _ :: _ => _do_compare_loop bufsize fp1' fp2'
               end
          else Ok false
      end
  end.
Proof.
  rewrite _do_compare_loop_equation_1.
  destruct (inspect (read fp1 bufsize)) as [[[b1 fp1']|e] eq1];
    pose proof eq1 as eq1'; simpl; rewrite eq1'; [|reflexivity].
  destruct (read fp2 bufsize) as [[b2 fp2']|e]; simpl; [|reflexivity].
  destruct (bytes_eq_dec b1 b2); simpl; [|reflexivity].
  destruct b1; reflexivity.
Qed.

(** The loop answers [True] exactly when the unread parts are equal and
    neither file fails before the empty read that ends it. *)
Lemma _do_compare_loop_true bufsize :
  0 < bufsize ->
  forall n fp1 fp2,
    length (unread fp1) <= n ->
    (_do_compare_loop bufsize fp1 fp2 = Ok true
     <-> unread fp1 = unread fp2
         /\ enough bufsize fp1 /\ enough bufsize fp2).
Proof.
  intros Hb. induction n as [|n IH]; intros fp1 fp2 Hlen;
    rewrite _do_compare_loop_unfold.
  - (* nothing left in the first file *)
    assert (Hu : unread fp1 = []) by (destruct (unread fp1); simpl in *; [reflexivity | lia]).
    destruct (read fp1 bufsize) as [[b1 fp1']|e] eqn:R1.
    + apply read_ok in R1. destruct R1 as (-> & _ & _ & G1).
      rewrite Hu, firstn_nil.
      destruct (read fp2 bufsize) as [[b2 fp2']|e] eqn:R2.
      * apply read_ok in R2. destruct R2 as (-> & _ & _ & G2).
        destruct (bytes_eq_dec [] (firstn bufsize (unread fp2))) as [E|E].
        -- symmetry in E. apply firstn_empty in E; [|assumption].
           split; [intros _|reflexivity].
           unfold enough. rewrite Hu, E. simpl.
           rewrite reads_needed_empty by assumption.
           repeat split; [destruct (good_reads fp1) as [[|]|]
                         |destruct (good_reads fp2) as [[|]|]];
             try exact I; try lia; congruence.
        -- split; [discriminate|]. intros (U & _). exfalso. apply E.
           rewrite <- U. rewrite firstn_nil. reflexivity.
      * apply read_raise in R2. split; [discriminate|].
        intros (U & _ & E2). unfold enough in E2. rewrite R2 in E2.
        unfold reads_needed in E2. lia.
    + apply read_raise in R1. split; [discriminate|].
      intros (_ & E1 & _). unfold enough in E1. rewrite R1 in E1.
      unfold reads_needed in E1. lia.
  - destruct (read fp1 bufsize) as [[b1 fp1']|e] eqn:R1.
    + apply read_ok in R1. destruct R1 as (-> & U1 & K1 & G1).
      destruct (read fp2 bufsize) as [[b2 fp2']|e] eqn:R2.
      * apply read_ok in R2. destruct R2 as (-> & U2 & K2 & G2).
        destruct (bytes_eq_dec (firstn bufsize (unread fp1))
                    (firstn bufsize (unread fp2))) as [E|E].
        -- destruct (firstn bufsize (unread fp1)) as [|x b] eqn:F1.
           ++ (* both reads are empty *)
              apply firstn_empty in F1; [|assumption].
              symmetry in E. apply firstn_empty in E; [|assumption].
              split; [intros _|reflexivity].
              unfold enough. rewrite F1, E. simpl.
              rewrite reads_needed_empty by assumption.
              repeat split; [destruct (good_reads fp1) as [[|]|]
                            |destruct (good_reads fp2) as [[|]|]];
                try exact I; try lia; congruence.
           ++ (* one more turn *)
              assert (L1 : 0 < length (unread fp1))
                by (destruct (unread fp1); [rewrite firstn_nil in F1; discriminate | simpl; lia]).
              assert (L2 : 0 < length (unread fp2))
                by (destruct (unread fp2); [rewrite firstn_nil in E; discriminate | simpl; lia]).
              assert (Hlen' : length (unread fp1') <= n).
              { rewrite U1, length_skipn. lia. }
              rewrite (IH fp1' fp2' Hlen').
              unfold enough. rewrite U1, U2, K1, K2, !length_skipn.
              rewrite (reads_needed_step bufsize (length (unread fp1)))
                by assumption.
              rewrite (reads_needed_step bufsize (length (unread fp2)))
                by assumption.
              rewrite <- F1 in E.
              split.
              ** intros (S & E1 & E2). split.
                 { rewrite <- (firstn_skipn bufsize (unread fp1)).
                   rewrite <- (firstn_skipn bufsize (unread fp2)).
                   congruence. }
                 split; [destruct (good_reads fp1) as [[|]|]
                        |destruct (good_reads fp2) as [[|]|]];
                   simpl in *; try exact I; try lia; congruence.
              ** intros (S & E1 & E2). split; [congruence|].
                 split; [destruct (good_reads fp1) as [[|]|]
                        |destruct (good_reads fp2) as [[|]|]];
                   simpl in *; try exact I; try lia; congruence.
        -- split; [discriminate|]. intros (U & _). exfalso. apply E.
           congruence.
      * apply read_raise in R2. split; [discriminate|].
        intros (U & _ & E2). unfold enough in E2. rewrite R2 in E2.
        unfold reads_needed in E2. lia.
    + apply read_raise in R1. split; [discriminate|].
      intros (_ & E1 & _). unfold enough in E1. rewrite R1 in E1.
      unfold reads_needed in E1. lia.
Qed.

End Reading.

Section Compare.

Variable w : os.

Lemma stat_regular_file p data io :
  regular_file w p data io ->
  stat w p = Ok {| st_mode := S_IFREG; st_size := Z.of_nat (length data) |}.
Proof.
  unfold regular_file, stat. intros ->. reflexivity.
Qed.

Lemma getsize_regular_file p data io :
  regular_file w p data io -> getsize w p = Ok (Z.of_nat (length data)).
Proof.
  intros H. unfold getsize. rewrite (stat_regular_file p data io H).
  reflexivity.
Qed.

(** Only a regular file has the type bits [S_IFREG]. *)
Lemma stat_S_IFREG p st :
  stat w p = Ok st -> S_IFMT (st_mode st) = S_IFREG ->
  exists data io,
    regular_file w p data io /\ st_size st = Z.of_nat (length data).
Proof.
  unfold stat, regular_file.
  destruct (resolve (fs_root w) SYMLOOP_MAX true p) as [[data io| |size es|t]|];
    intros H; inversion H; subst; simpl; intros Hm;
    try (vm_compute in Hm; discriminate).
  exists data, io. auto.
Qed.

Lemma getsize_stat p n :
  getsize w p = Ok n <-> exists st, stat w p = Ok st /\ st_size st = n.
Proof.
  unfold getsize. split.
  - intros H. apply bind_ok in H. destruct H as [st [Hs Hn]].
    inversion Hn; subst. eauto.
  - intros [st [-> <-]]. reflexivity.
Qed.

(** [stat] is outside the [try] of [_do_compare]: its exception leaves
    [compare_files]. *)
Lemma compare_files_stat_raise f1 f2 :
  (exists e, stat w f1 = Raise e) \/ (exists e, stat w f2 = Raise e) ->
  exists e, compare_files w f1 f2 = Raise e.
Proof.
  unfold compare_files. intros [[e H]|[e H]].
  - rewrite H. simpl. eauto.
  - destruct (stat w f1) as [st1|e1]; simpl; [|eauto].
    rewrite H. simpl. eauto.
Qed.

Lemma _do_compare_no_raise file1 file2 :
  exists b, _do_compare w file1 file2 = Ok b.
Proof.
  unfold _do_compare. cbv zeta. apply try_except_ok_default.
Qed.

Lemma compare_files_stat_ok f1 f2 st1 st2 :
  stat w f1 = Ok st1 -> stat w f2 = Ok st2 ->
  exists b, compare_files w f1 f2 = Ok b.
Proof.
  unfold compare_files. intros -> ->. simpl.
  destruct (negb _ || negb _); [eauto|].
  destruct (negb _); [eauto|]. apply _do_compare_no_raise.
Qed.

Lemma open_rb_regular_file p data io :
  regular_file w p data io ->
  open_rb w p =
  match io with
  | Readable => Ok {| unread := data; good_reads := None |}
  | OpenFails => Raise OSError
  | ReadFails k => Ok {| unread := data; good_reads := Some k |}
  end.
Proof.
  unfold regular_file, open_rb. intros ->. destruct io; reflexivity.
Qed.

(** [_do_compare] on two regular files. *)
Lemma _do_compare_regular_files f1 f2 d1 io1 d2 io2 :
  regular_file w f1 d1 io1 -> regular_file w f2 d2 io2 ->
  (_do_compare w f1 f2 = Ok true
   <-> d1 = d2
       /\ delivers io1 (reads_needed BUFSIZE (length d1)) = true
       /\ delivers io2 (reads_needed BUFSIZE (length d2)) = true).
Proof.
  intros H1 H2. unfold _do_compare. cbv zeta.
  rewrite (open_rb_regular_file f1 d1 io1 H1).
  rewrite (open_rb_regular_file f2 d2 io2 H2).
  assert (Hloop : forall fp1 fp2,
             try_except (_do_compare_loop BUFSIZE fp1 fp2) (Ok false) = Ok true
             <-> _do_compare_loop BUFSIZE fp1 fp2 = Ok true).
  { intros fp1 fp2.
    destruct (_do_compare_loop BUFSIZE fp1 fp2) as [b|[]]; simpl;
      split; congruence. }
  destruct io1 as [| |k1]; cbn [bind try_except delivers];
    [|split; [discriminate | intros (_ & ? & _); discriminate]|];
    (destruct io2 as [| |k2]; cbn [bind try_except delivers];
     [|split; [discriminate | intros (_ & _ & ?); discriminate]|]);
    rewrite Hloop,
      (_do_compare_loop_true BUFSIZE BUFSIZE_pos (length d1)) by (simpl; lia);
    unfold enough; cbn [unread good_reads]; rewrite ?Nat.leb_le;
    intuition auto.
Qed.

(** The complete behaviour of [compare_files] on two regular files. *)
Lemma compare_files_regular_files f1 f2 d1 io1 d2 io2 :
  regular_file w f1 d1 io1 -> regular_file w f2 d2 io2 ->
  compare_files w f1 f2 =
  Ok (if Nat.eq_dec (length d1) (length d2)
      then (if bytes_eq_dec d1 d2 then true else false)
           && delivers io1 (reads_needed BUFSIZE (length d1))
           && delivers io2 (reads_needed BUFSIZE (length d2))
      else false).
Proof.
  intros H1 H2. unfold compare_files.
  rewrite (stat_regular_file f1 d1 io1 H1), (stat_regular_file f2 d2 io2 H2).
  simpl bind. cbv zeta. unfold _sig. simpl fst. simpl snd. simpl st_mode.
  replace (S_IFMT S_IFREG =? S_IFREG)%Z with true by reflexivity.
  simpl orb. cbv iota.
  destruct (Nat.eq_dec (length d1) (length d2)) as [Hl|Hl].
  - rewrite Hl, Z.eqb_refl. simpl negb. cbv iota.
    pose proof (_do_compare_regular_files f1 f2 d1 io1 d2 io2 H1 H2) as Hc.
    destruct (_do_compare_no_raise f1 f2) as [b Hb]. rewrite Hb in *.
    f_equal. rewrite Hl in Hc.
    destruct b.
    + destruct Hc as [Hc _]. destruct (Hc eq_refl) as (-> & -> & ->).
      destruct (bytes_eq_dec d2 d2); [reflexivity | contradiction].
    + destruct (bytes_eq_dec d1 d2) as [Hd|Hd]; [|reflexivity].
      destruct (delivers io1 _) eqn:D1; [|reflexivity].
      destruct (delivers io2 _) eqn:D2; [|reflexivity].
      destruct Hc as [_ Hc]. exfalso.
      assert (Hf : @Ok bool false = Ok true) by (apply Hc; auto).
      discriminate.
  - replace (Z.of_nat (length d1) =? Z.of_nat (length d2))%Z with false.
    + reflexivity.
    + symmetry. apply Z.eqb_neq. lia.
Qed.

(** [compare_files] sees a path only through the node it resolves to. *)
Lemma compare_files_same_node_r c f f' :
  resolve (fs_root w) SYMLOOP_MAX true f
  = resolve (fs_root w) SYMLOOP_MAX true f' ->
  compare_files w c f = compare_files w c f'.
Proof.
  intros H. unfold compare_files, _do_compare, stat, open_rb.
  rewrite H. reflexivity.
Qed.

(** The body of [compare_files], with the two signatures written out. *)
Lemma compare_files_eq f1 f2 :
  compare_files w f1 f2 =
  (st1 <- stat w f1 ;;
   st2 <- stat w f2 ;;
   if negb (S_IFMT (st_mode st1) =? S_IFREG)%Z
      || negb (S_IFMT (st_mode st2) =? S_IFREG)%Z
   then Ok false
   else if negb (st_size st1 =? st_size st2)%Z then Ok false
        else _do_compare w f1 f2).
Proof.
  reflexivity.
Qed.

(** A positive answer: two regular files of one size. *)
Lemma compare_files_true f1 f2 :
  compare_files w f1 f2 = Ok true ->
  exists d1 io1 d2 io2,
    regular_file w f1 d1 io1 /\ regular_file w f2 d2 io2
    /\ length d1 = length d2 /\ d1 = d2.
Proof.
  intros H. pose proof H as H0. rewrite compare_files_eq in H.
  set (r := _do_compare w f1 f2) in H. clearbody r.
  destruct (stat w f1) as [st1|e1] eqn:S1; [|discriminate H].
  destruct (stat w f2) as [st2|e2] eqn:S2; [|discriminate H].
  cbn [bind] in H.
  destruct (S_IFMT (st_mode st1) =? S_IFREG)%Z eqn:M1;
    [|cbn [negb orb] in H; discriminate].
  destruct (S_IFMT (st_mode st2) =? S_IFREG)%Z eqn:M2;
    [|cbn [negb orb] in H; discriminate].
  clear H r. apply Z.eqb_eq in M1, M2.
  destruct (stat_S_IFREG f1 st1 S1 M1) as (d1 & io1 & R1 & _).
  destruct (stat_S_IFREG f2 st2 S2 M2) as (d2 & io2 & R2 & _).
  exists d1, io1, d2, io2. split; [assumption|]. split; [assumption|].
  rewrite (compare_files_regular_files f1 f2 d1 io1 d2 io2 R1 R2) in H0.
  destruct (Nat.eq_dec (length d1) (length d2)); [|discriminate].
  split; [assumption|].
  destruct (bytes_eq_dec d1 d2); [assumption | discriminate].
Qed.

Lemma same_as_size current filename :
  same_as w current filename = true ->
  exists n, getsize w current = Ok n /\ getsize w filename = Ok n.
Proof.
  unfold same_as. destruct (compare_files w current filename) as [[|]|] eqn:H;
    try discriminate. intros _.
  apply compare_files_true in H.
  destruct H as (d1 & io1 & d2 & io2 & R1 & R2 & Hl & _).
  exists (Z.of_nat (length d1)).
  rewrite (getsize_regular_file _ _ _ R1), (getsize_regular_file _ _ _ R2).
  rewrite Hl. auto.
Qed.

End Compare.

(* ===================================================================== *)
(** ** The comparison pipeline                                            *)
(* ===================================================================== *)

Section Occurrences.

Lemma occurrences_none groups x :
  (forall g, In g groups -> ~ In x g) -> occurrences groups x = 0.
Proof.
  unfold occurrences. intros H. rewrite filter_none; [reflexivity|].
  intros g Hg. destruct (in_dec path_eq_dec x g) as [Hx|]; [|reflexivity].
  exfalso. exact (H g Hg Hx).
Qed.

Lemma occurrences_app groups groups' x :
  occurrences (groups ++ groups') x
  = occurrences groups x + occurrences groups' x.
Proof.
  unfold occurrences. rewrite filter_app, length_app. reflexivity.
Qed.

Lemma occurrences_one g x : In x g -> occurrences [g] x = 1.
Proof.
  unfold occurrences. simpl. intros H.
  destruct (in_dec path_eq_dec x g); [reflexivity | contradiction].
Qed.

(** Groups without a common member hold every path at most once. *)
Lemma occurrences_nodup groups x :
  NoDup (concat groups) -> occurrences groups x <= 1.
Proof.
  induction groups as [|g groups IH]; simpl; intros Hn; [unfold occurrences; simpl; lia|].
  change (g :: groups) with ([g] ++ groups). rewrite occurrences_app.
  destruct (in_dec path_eq_dec x g) as [Hx|Hx].
  - rewrite (occurrences_one g x Hx), occurrences_none; [lia|].
    intros g' Hg' Hx'.
    apply NoDup_app_remove_l in Hn as Hn'.
    assert (Hc : In x (concat groups)).
    { apply in_concat. eauto. }
    clear IH Hn'. induction g as [|y g IHg]; [contradiction|].
    simpl in Hn. inversion Hn as [|? ? Hy Hn']; subst.
    destruct Hx as [->|Hx]; [|auto].
    apply Hy. apply in_or_app. right. assumption.
  - rewrite (occurrences_none [g] x).
    + apply IH. apply NoDup_app_remove_l in Hn. assumption.
    + intros g' [<-|[]]. assumption.
Qed.

End Occurrences.

Section ByComparing.

Variable w : os.

Lemma compare_with_ok current rest :
  forall g g',
    compare_with w current rest g = Ok g' ->
    g' = g ++ filter (same_as w current) rest.
Proof.
  induction rest as [|f rest IH]; cbn [compare_with filter]; intros g g' H.
  - inversion H. rewrite app_nil_r. reflexivity.
  - unfold same_as at 1.
    destruct (compare_files w current f) as [[|]|e]; cbn [bind] in H;
      [| |discriminate]; apply IH in H; subst g'.
    + rewrite <- app_assoc. reflexivity.
    + reflexivity.
Qed.

Lemma compare_with_total current rest :
  forall g,
    (forall f, In f rest -> exists b, compare_files w current f = Ok b) ->
    compare_with w current rest g = Ok (g ++ filter (same_as w current) rest).
Proof.
  induction rest as [|f rest IH]; cbn [compare_with filter]; intros g H.
  - rewrite app_nil_r. reflexivity.
  - unfold same_as at 1.
    destruct (H f (or_introl eq_refl)) as [b ->]. cbn [bind].
    rewrite IH by (intros; apply H; right; assumption).
    destruct b; [rewrite <- app_assoc|]; reflexivity.
Qed.

Lemma compare_with_raise current rest :
  forall g f e,
    In f rest -> compare_files w current f = Raise e ->
    exists e', compare_with w current rest g = Raise e'.
Proof.
  induction rest as [|f' rest IH]; cbn [compare_with]; intros g f e Hin Hf;
    [contradiction|].
  destruct (compare_files w current f') as [b|e'] eqn:Hf'; cbn [bind]; [|eauto].
  destruct Hin as [->|Hin]; [congruence|]. eapply IH; eassumption.
Qed.

Lemma by_comparing_loop_nil groups :
  find_duplicate_files_by_comparing_loop w [] groups = Ok groups.
Proof.
  apply find_duplicate_files_by_comparing_loop_equation_1.
Qed.

Lemma by_comparing_loop_cons current tl groups :
  find_duplicate_files_by_comparing_loop w (current :: tl) groups =
  match compare_with w current tl [current] with
  | Raise e => Raise e
  | Ok group_duplicate_files =>
      find_duplicate_files_by_comparing_loop w
        (remove_group (current :: tl) group_duplicate_files)
        (if 1 <? length group_duplicate_files
         then groups ++ [group_duplicate_files]
         else groups)
  end.
Proof.
  rewrite find_duplicate_files_by_comparing_loop_equation_2.
  destruct (inspect (compare_with w current tl [current])) as [[g|e] eq1];
    pose proof eq1 as eq1'; simpl; rewrite eq1'; reflexivity.
Qed.

Lemma remove_group_In l g x :
  In x (remove_group l g) <-> In x l /\ ~ In x g.
Proof.
  unfold remove_group. rewrite filter_In.
  destruct (in_dec path_eq_dec x g); split; intros [H1 H2];
    try discriminate; try contradiction; auto.
Qed.

Lemma remove_group_shorter current tl g :
  length (remove_group (current :: tl) (current :: g)) <= length tl.
Proof.
  unfold remove_group. cbn [filter].
  destruct (in_dec path_eq_dec current (current :: g)) as [|H];
    [|exfalso; apply H; left; reflexivity].
  apply filter_length_le.
Qed.

(** A property kept by every turn of the [while] loop holds of the
    result. The group of a turn is the head of the working list followed
    by the files of its tail that compare equal to it. *)
Lemma by_comparing_loop_invariant (I : list path -> list (list path) -> Prop) :
  (forall current tl groups,
      I (current :: tl) groups ->
      (forall f, In f tl -> exists b, compare_files w current f = Ok b) ->
      let g := current :: filter (same_as w current) tl in
      I (remove_group (current :: tl) g)
        (if 1 <? length g then groups ++ [g] else groups)) ->
  forall n l groups r,
    length l <= n ->
    I l groups ->
    find_duplicate_files_by_comparing_loop w l groups = Ok r ->
    I [] r.
Proof.
  intros Hstep. induction n as [|n IH]; intros l groups r Hlen HI Hr.
  - destruct l; [|simpl in Hlen; lia].
    rewrite by_comparing_loop_nil in Hr. inversion Hr; subst. assumption.
  - destruct l as [|current tl].
    + rewrite by_comparing_loop_nil in Hr. inversion Hr; subst. assumption.
    + rewrite by_comparing_loop_cons in Hr.
      destruct (compare_with w current tl [current]) as [g|e] eqn:Hg;
        [|discriminate].
      assert (Hall : forall f, In f tl ->
                               exists b, compare_files w current f = Ok b).
      { intros f Hf.
        destruct (compare_files w current f) as [b|e] eqn:Hc; [eauto|].
        destruct (compare_with_raise current tl [current] f e Hf Hc)
          as [e' He']. congruence. }
      apply compare_with_ok in Hg. cbn [app] in Hg. subst g.
      eapply IH; [|apply (Hstep current tl groups HI Hall)|exact Hr].
      pose proof (remove_group_shorter current tl
                    (filter (same_as w current) tl)).
      simpl in Hlen. lia.
Qed.

(** The loop ends with a result as soon as no comparison raises. *)
Lemma by_comparing_loop_total :
  forall n l groups,
    length l <= n ->
    (forall f g, In f l -> In g l -> exists b, compare_files w f g = Ok b) ->
    exists r, find_duplicate_files_by_comparing_loop w l groups = Ok r.
Proof.
  induction n as [|n IH]; intros l groups Hlen Hall.
  - destruct l; [|simpl in Hlen; lia].
    rewrite by_comparing_loop_nil. eauto.
  - destruct l as [|current tl].
    + rewrite by_comparing_loop_nil. eauto.
    + rewrite by_comparing_loop_cons.
      rewrite compare_with_total
        by (intros f Hf; apply Hall; [left; reflexivity | right; assumption]).
      cbn [app]. apply IH.
      * pose proof (remove_group_shorter current tl
                      (filter (same_as w current) tl)).
        simpl in Hlen. lia.
      * intros f g Hf Hg. apply remove_group_In in Hf, Hg.
        apply Hall; tauto.
Qed.

End ByComparing.

(* ===================================================================== *)
(** ** The hash pipeline                                                  *)
(* ===================================================================== *)

Section HashPipeline.

Variable w : os.

Lemma size_key_ok p k :
  size_key w p = Ok k <-> exists n, getsize w p = Ok n /\ k = PyInt n.
Proof.
  unfold size_key. split.
  - intros H. apply bind_ok in H. destruct H as [n [Hn Hk]].
    inversion Hk; subst. eauto.
  - intros [n [-> ->]]. reflexivity.
Qed.

Lemma size_key_raise p e :
  getsize w p = Raise e -> size_key w p = Raise e.
Proof.
  unfold size_key. intros ->. reflexivity.
Qed.

Lemma group_files_by_size_eq l :
  group_files_by_size w l = group_files l (size_key w).
Proof.
  reflexivity.
Qed.

(** [get_file_checksum] catches what [open] and [read] raise. *)
Lemma get_file_checksum_total p : exists k, get_file_checksum w p = Ok k.
Proof.
  unfold get_file_checksum. apply try_except_ok_default.
Qed.

Lemma get_file_checksum_readable p data :
  regular_file w p data Readable ->
  get_file_checksum w p = Ok (PyStr (md5_hexdigest w data)).
Proof.
  unfold regular_file, get_file_checksum, open_rb. intros ->. reflexivity.
Qed.

Lemma group_files_by_checksum_total l :
  exists gs, group_files_by_checksum w l = Ok gs.
Proof.
  apply group_files_total. intros x _. apply get_file_checksum_total.
Qed.

Lemma find_duplicate_files_loop_total size_groups :
  forall groups, exists r,
    find_duplicate_files_loop w size_groups groups = Ok r.
Proof.
  induction size_groups as [|sg tl IH]; cbn [find_duplicate_files_loop];
    intros groups; [eauto|].
  destruct (group_files_by_checksum_total sg) as [cg ->]. cbn [bind].
  apply IH.
Qed.

(** The result of the loop: the groups so far, then the checksum groups of
    each size group in turn. *)
Lemma find_duplicate_files_loop_ok size_groups :
  forall groups r,
    find_duplicate_files_loop w size_groups groups = Ok r ->
    exists parts,
      Forall2 (fun sg cg => group_files_by_checksum w sg = Ok cg)
        size_groups parts
      /\ r = groups ++ concat parts.
Proof.
  induction size_groups as [|sg tl IH]; cbn [find_duplicate_files_loop];
    intros groups r H.
  - inversion H; subst. exists []. split; [constructor|].
    simpl. rewrite app_nil_r. reflexivity.
  - destruct (group_files_by_checksum w sg) as [cg|e] eqn:Hcg;
      cbn [bind] in H; [|discriminate].
    apply IH in H. destruct H as [parts [Hparts ->]].
    exists (cg :: parts). split; [constructor; assumption|].
    simpl. rewrite app_assoc. reflexivity.
Qed.

Lemma find_duplicate_files_ok l gs :
  find_duplicate_files w l = Ok gs ->
  exists size_groups parts,
    group_files_by_size w l = Ok size_groups
    /\ Forall2 (fun sg cg => group_files_by_checksum w sg = Ok cg)
         size_groups parts
    /\ gs = concat parts.
Proof.
  unfold find_duplicate_files. intros H.
  destruct (group_files_by_size w l) as [sgs|e]; cbn [bind] in H;
    [|discriminate].
  apply find_duplicate_files_loop_ok in H. destruct H as [parts [Hp ->]].
  exists sgs, parts. auto.
Qed.

(** A group of the result is a checksum group of one size group. *)
Lemma find_duplicate_files_group l gs g :
  find_duplicate_files w l = Ok gs -> In g gs ->
  exists size_groups sg cg,
    group_files_by_size w l = Ok size_groups
    /\ In sg size_groups
    /\ group_files_by_checksum w sg = Ok cg
    /\ In g cg.
Proof.
  intros H Hg. apply find_duplicate_files_ok in H.
  destruct H as (sgs & parts & Hs & Hp & ->).
  apply in_concat in Hg. destruct Hg as [cg [Hcg Hg]].
  assert (Hsg : exists sg, In sg sgs /\ group_files_by_checksum w sg = Ok cg).
  { clear Hs. induction Hp as [|sg cg' sgs parts Hsg Hp IH];
      [contradiction|].
    destruct Hcg as [->|Hcg].
    - exists sg. split; [left; reflexivity | assumption].
    - destruct (IH Hcg) as (sg' & Hin & Hc).
      exists sg'. split; [right; assumption | assumption]. }
  destruct Hsg as (sg & Hin & Hc). exists sgs, sg, cg. auto.
Qed.

(** The hash pipeline raises exactly when [getsize] does. *)
Lemma find_duplicate_files_raise l x e :
  In x l -> getsize w x = Raise e ->
  exists e', find_duplicate_files w l = Raise e'.
Proof.
  intros Hx He. unfold find_duplicate_files.
  destruct (group_files_raise (size_key w) l x e Hx (size_key_raise x e He))
    as [e' H].
  rewrite group_files_by_size_eq, H. cbn [bind]. eauto.
Qed.

(** Members of one group of the hash pipeline have one size, and it is
    not zero. *)
Lemma find_duplicate_files_size l gs g :
  find_duplicate_files w l = Ok gs -> In g gs ->
  exists n, n <> 0%Z /\ forall x, In x g -> In x l /\ getsize w x = Ok n.
Proof.
  intros H Hg.
  destruct (find_duplicate_files_group l gs g H Hg)
    as (sgs & sg & cg & Hs & Hsg & Hc & Hcg).
  rewrite group_files_by_size_eq in Hs.
  destruct (group_files_group (size_key w) l sgs sg Hs Hsg) as [k [Hk _]].
  assert (Hmem : forall x, In x sg ->
                           In x l /\ size_key w x = Ok k /\ truthy k = true).
  { intros x Hx. rewrite Hk in Hx. apply filter_In in Hx.
    destruct Hx as [Hx Hkey]. apply has_key_inv in Hkey. tauto. }
  assert (Hsub : forall x, In x g -> In x sg).
  { intros x Hx.
    apply (group_files_member (get_file_checksum w) sg cg g x Hc Hcg Hx). }
  destruct g as [|x0 g'].
  - exists 1%Z. split; [lia | contradiction].
  - destruct (Hmem x0 (Hsub x0 (or_introl eq_refl))) as (_ & Hk0 & Ht).
    apply size_key_ok in Hk0. destruct Hk0 as [n [Hn ->]].
    exists n. split.
    + simpl in Ht. intros ->. discriminate.
    + intros x Hx. destruct (Hmem x (Hsub x Hx)) as (Hl & Hkx & _).
      apply size_key_ok in Hkx. destruct Hkx as [m [Hm Heq]].
      inversion Heq; subst. auto.
Qed.

End HashPipeline.

(* ===================================================================== *)
(** ** [os.walk] and [scan_files]                                         *)
(* ===================================================================== *)

Section Walk.

Variable w : os.

(** Induction on a tree, with the hypothesis on every entry of a
    directory. *)
Lemma node_tree_ind (P : node -> Prop) :
  (forall data io, P (Reg data io)) ->
  P Sock ->
  (forall size es, Forall (fun e => P (snd e)) es -> P (Dir size es)) ->
  (forall t, P (Lnk t)) ->
  forall n, P n.
Proof.
  intros HReg HSock HDir HLnk.
  refine (fix IH (n : node) : P n :=
            match n with
            | Reg data io => HReg data io
            | Sock => HSock
            | Dir size es =>
                HDir size es
                  ((fix go (l : list (string * node))
                     : Forall (fun e => P (snd e)) l :=
                      match l with
                      | [] => Forall_nil _
                      | e :: tl => Forall_cons e (IH (snd e)) (go tl)
                      end) es)
            | Lnk t => HLnk t
            end).
Qed.

(** Every directory [os.walk] reports lies below [top] on a way that
    crosses no symbolic link. *)
Lemma walk_node_descends n :
  forall top root dirs files,
    In (root, dirs, files) (walk_node w top n) ->
    exists rel size es,
      root = top ++ rel
      /\ descends n rel (Dir size es)
      /\ dirs = dirnames w es
      /\ files = filenames w es.
Proof.
  induction n as [data io| |size es IH|t] using node_tree_ind;
    cbn [walk_node]; intros top root dirs files Hin; try contradiction.
  destruct Hin as [Heq|Hin].
  - inversion Heq; subst. exists [], size, es.
    rewrite app_nil_r. repeat split. constructor.
  - apply in_flat_map in Hin. destruct Hin as [[name child] [He Hin]].
    cbn [fst snd] in Hin.
    destruct (is_dir w child && negb (is_symlink child)) eqn:Hd;
      [|contradiction].
    apply andb_true_iff in Hd. destruct Hd as [_ Hl].
    apply negb_true_iff in Hl.
    rewrite Forall_forall in IH.
    destruct (IH (name, child) He _ _ _ _ Hin)
      as (rel & size' & es' & -> & Hdesc & -> & ->).
    exists (name :: rel), size', es'. repeat split.
    + unfold join. rewrite <- app_assoc. reflexivity.
    + econstructor; eassumption.
Qed.

Lemma scan_files_In path x :
  In x (scan_files w path) <->
  islink w x = false
  /\ exists root dirs files f,
      In (root, dirs, files) (walk w (abspath w (expanduser w path)))
      /\ In f files /\ x = join root f.
Proof.
  unfold scan_files. rewrite filter_In, in_flat_map, negb_true_iff.
  split.
  - intros [[[[root dirs] files] [Ht Hx]] Hl]. split; [assumption|].
    apply in_map_iff in Hx. destruct Hx as [f [<- Hf]].
    exists root, dirs, files, f. auto.
  - intros [Hl (root & dirs & files & f & Ht & Hf & ->)]. split; [|assumption].
    exists (root, dirs, files). split; [assumption|].
    apply in_map. assumption.
Qed.

End Walk.

(* ===================================================================== *)
(** ** Properties of the groups of the comparison pipeline                *)
(* ===================================================================== *)

Section ByComparingGroups.

Variable w : os.

Lemma by_comparing_eq l :
  find_duplicate_files_by_comparing w l
  = find_duplicate_files_by_comparing_loop w l [].
Proof.
  reflexivity.
Qed.

Lemma in_snoc_groups (groups : list (list path)) g g' :
  In g' (groups ++ [g]) -> In g' groups \/ g' = g.
Proof.
  intros H. apply in_app_or in H. destruct H as [H|[H|[]]]; auto.
Qed.

(** Only groups of two files or more are kept. *)
Lemma by_comparing_two l gs :
  find_duplicate_files_by_comparing w l = Ok gs ->
  forall g, In g gs -> 2 <= length g.
Proof.
  rewrite by_comparing_eq. intros H.
  apply (by_comparing_loop_invariant w
           (fun _ groups => forall g, In g groups -> 2 <= length g))
    with (n := length l) (l := l) (groups := []); auto.
  - intros current tl groups HI _ g.
    destruct (1 <? length g) eqn:Hlen; [|assumption].
    apply Nat.ltb_lt in Hlen. intros g' Hg'.
    apply in_snoc_groups in Hg'. destruct Hg' as [Hg'| ->]; [auto | lia].
  - intros g [].
Qed.

(** The members of a group have one size. *)
Lemma by_comparing_size l gs :
  find_duplicate_files_by_comparing w l = Ok gs ->
  forall g, In g gs -> exists n, forall x, In x g -> getsize w x = Ok n.
Proof.
  rewrite by_comparing_eq. intros H.
  apply (by_comparing_loop_invariant w
           (fun _ groups =>
              forall g, In g groups ->
                        exists n, forall x, In x g -> getsize w x = Ok n))
    with (n := length l) (l := l) (groups := []); auto.
  - intros current tl groups HI _ g.
    destruct (1 <? length g) eqn:Hlen; [|assumption].
    apply Nat.ltb_lt in Hlen. intros g' Hg'.
    apply in_snoc_groups in Hg'. destruct Hg' as [Hg'| ->]; [auto|].
    subst g. cbn [length] in Hlen.
    destruct (filter (same_as w current) tl) as [|z rest] eqn:Hf;
      [simpl in Hlen; lia|].
    assert (Hz : same_as w current z = true).
    { assert (Hin : In z (filter (same_as w current) tl))
        by (rewrite Hf; left; reflexivity).
      apply filter_In in Hin. tauto. }
    destruct (same_as_size w current z Hz) as [n [Hc _]].
    exists n. intros x [<-|Hx]; [assumption|].
    assert (Hin : In x (filter (same_as w current) tl))
      by (rewrite Hf; assumption).
    apply filter_In in Hin. destruct Hin as [_ Hs].
    destruct (same_as_size w current x Hs) as [m [Hc' Hx']].
    congruence.
  - intros g [].
Qed.

(** From a list without repetition, groups without a common member. *)
Lemma by_comparing_nodup l gs :
  NoDup l ->
  find_duplicate_files_by_comparing w l = Ok gs ->
  NoDup (concat gs).
Proof.
  rewrite by_comparing_eq. intros Hl H.
  assert (HI : NoDup (@nil path) /\ NoDup (concat gs)
               /\ forall x, In x (concat gs) -> ~ In x (@nil path)).
  { apply (by_comparing_loop_invariant w
             (fun l groups =>
                NoDup l /\ NoDup (concat groups)
                /\ forall x, In x (concat groups) -> ~ In x l))
      with (n := length l) (l := l) (groups := []); auto.
    - intros current tl groups (Hn & Hg & Hd) _ g.
      assert (Hgn : NoDup g).
      { subst g. inversion Hn as [|? ? Hc Htl]; subst. constructor.
        - intros Hin. apply filter_In in Hin. tauto.
        - apply NoDup_filter. assumption. }
      assert (Hgl : forall x, In x g -> In x (current :: tl)).
      { subst g. intros x [<-|Hx]; [left; reflexivity|].
        apply filter_In in Hx. right. tauto. }
      assert (Hrem : NoDup (remove_group (current :: tl) g))
        by (apply NoDup_filter; assumption).
      destruct (1 <? length g).
      + split; [assumption|]. rewrite concat_app. cbn [concat].
        rewrite app_nil_r. split.
        * apply NoDup_app; [assumption | assumption |].
          intros x Hx Hxg. apply (Hd x Hx). auto.
        * intros x Hx Hr. apply remove_group_In in Hr.
          destruct Hr as [Hxl Hxg]. apply in_app_or in Hx.
          destruct Hx as [Hx|Hx]; [apply (Hd x Hx Hxl) | contradiction].
      + split; [assumption|]. split; [assumption|].
        intros x Hx Hr. apply remove_group_In in Hr.
        apply (Hd x Hx). tauto.
    - split; [assumption|]. split; [constructor | intros x []]. }
  tauto.
Qed.

Lemma nodup_concat_apart (groups : list (list path)) :
  NoDup (concat groups) ->
  forall i j gi gj x,
    i <> j ->
    nth_error groups i = Some gi -> nth_error groups j = Some gj ->
    In x gi -> ~ In x gj.
Proof.
  assert (Hlt : forall groups : list (list path), NoDup (concat groups) ->
            forall i j gi gj x,
              i < j ->
              nth_error groups i = Some gi -> nth_error groups j = Some gj ->
              In x gi -> ~ In x gj).
  { clear groups. induction groups as [|g groups IH]; intros Hn i j gi gj x Hij Hi Hj Hxi Hxj.
    - destruct i; discriminate.
    - cbn [concat] in Hn. destruct j as [|j]; [lia|]. cbn [nth_error] in Hj.
      destruct i as [|i].
      + cbn [nth_error] in Hi. inversion Hi; subst gi.
        assert (Hc : In x (concat groups)).
        { apply in_concat. exists gj. split; [|assumption].
          eapply nth_error_In; eassumption. }
        clear IH Hi Hj. induction g as [|y g IHg]; [contradiction|].
        cbn [app] in Hn. inversion Hn as [|? ? Hy Hn']; subst.
        destruct Hxi as [->|Hxi]; [|auto].
        apply Hy. apply in_or_app. right. assumption.
      + cbn [nth_error] in Hi. apply NoDup_app_remove_l in Hn.
        apply (IH Hn i j gi gj x); auto. lia. }
  intros Hn i j gi gj x Hij Hi Hj Hxi Hxj.
  destruct (Nat.lt_ge_cases i j) as [H|H].
  - exact (Hlt groups Hn i j gi gj x H Hi Hj Hxi Hxj).
  - assert (H' : j < i) by lia.
    exact (Hlt groups Hn j i gj gi x H' Hj Hi Hxj Hxi).
Qed.

End ByComparingGroups.

(* ===================================================================== *)
(** ** When the pipelines return                                          *)
(* ===================================================================== *)

Section Returns.

Variable w : os.
Variable l : list path.
Hypothesis Hstat : forall x, In x l -> exists st, stat w x = Ok st.

(** Both pipelines return a list of groups when [stat] succeeds on every
    path of the list; nothing else can raise. *)
Lemma find_duplicate_files_returns :
  exists gs, find_duplicate_files w l = Ok gs.
Proof.
  unfold find_duplicate_files.
  destruct (group_files_total (size_key w) l) as [sgs Hs].
  - intros x Hx. destruct (Hstat x Hx) as [st Hst].
    exists (PyInt (st_size st)). unfold size_key, getsize.
    rewrite Hst. reflexivity.
  - rewrite group_files_by_size_eq, Hs. cbn [bind].
    apply find_duplicate_files_loop_total.
Qed.

Lemma find_duplicate_files_by_comparing_returns :
  exists gs, find_duplicate_files_by_comparing w l = Ok gs.
Proof.
  rewrite by_comparing_eq.
  apply (by_comparing_loop_total w (length l)); [lia|].
  intros f g Hf Hg.
  destruct (Hstat f Hf) as [st1 H1]. destruct (Hstat g Hg) as [st2 H2].
  apply (compare_files_stat_ok w f g st1 st2 H1 H2).
Qed.

End Returns.

(* ===================================================================== *)
(** ** Identical files                                                    *)
(* ===================================================================== *)

Section Counting.

Lemma occurrences_cons g groups x :
  occurrences (g :: groups) x
  = (if in_dec path_eq_dec x g then 1 else 0) + occurrences groups x.
Proof.
  unfold occurrences. cbn [filter].
  destruct (in_dec path_eq_dec x g); reflexivity.
Qed.

Lemma occurrences_zero groups x :
  occurrences groups x = 0 -> forall g, In g groups -> ~ In x g.
Proof.
  induction groups as [|g0 groups IH]; intros H g Hg Hx; [contradiction|].
  rewrite occurrences_cons in H.
  destruct (in_dec path_eq_dec x g0) as [Hin|Hout]; [discriminate|].
  destruct Hg as [->|Hg]; [contradiction|].
  apply (IH H g Hg Hx).
Qed.

Lemma occurrences_pos groups g x :
  In g groups -> In x g -> 1 <= occurrences groups x.
Proof.
  induction groups as [|g0 groups IH]; intros Hg Hx; [contradiction|].
  rewrite occurrences_cons.
  destruct Hg as [->|Hg].
  - destruct (in_dec path_eq_dec x g); [lia | contradiction].
  - specialize (IH Hg Hx). lia.
Qed.

(** A path is a member of at most one group of [group_files]. *)
Lemma group_files_occurrences func l gs x :
  group_files l func = Ok gs -> occurrences gs x <= 1.
Proof.
  intros H. apply group_files_grouped in H.
  destruct H as [d [[Hk He _] ->]].
  assert (Hkey : forall k g, In (k, g) d -> In x g ->
                             has_key func k x = true).
  { intros k g Hin Hx. rewrite (He k g Hin) in Hx.
    apply filter_In in Hx. tauto. }
  clear He. induction d as [|[k g] d IH]; [unfold occurrences; simpl; lia|].
  cbn [keys map fst] in Hk. inversion Hk as [|? ? Hout Hk']; subst.
  cbn [values map snd filter].
  assert (Hrest : occurrences
                    (filter (fun group => 1 <? length group) (values d)) x
                  <= 1).
  { apply IH; [assumption|]. intros k' g' Hin. apply Hkey. right; assumption. }
  destruct (1 <? length g); [|exact Hrest].
  rewrite occurrences_cons.
  destruct (in_dec path_eq_dec x g) as [Hx|Hx]; [|exact Hrest].
  rewrite occurrences_none; [lia|].
  intros g' Hg' Hx'. apply filter_In in Hg'. destruct Hg' as [Hg' _].
  unfold values in Hg'. apply in_map_iff in Hg'.
  destruct Hg' as [[k' g''] [Heq Hin]]. cbn [snd] in Heq. subst g''.
  apply Hout.
  assert (Hkk : k' = k).
  { apply (has_key_unique func k' k x).
    - apply (Hkey k' g'); [right; assumption | assumption].
    - apply (Hkey k g); [left; reflexivity | assumption]. }
  subst k'. apply (in_map fst) in Hin. exact Hin.
Qed.

End Counting.

Section IdenticalFiles.

Variable w : os.
Variables (f g : path) (data : list byte).
Hypothesis Hf : regular_file w f data Readable.
Hypothesis Hg : regular_file w g data Readable.
Hypothesis Hfg : f <> g.

Lemma identical_files_compare : compare_files w f g = Ok true.
Proof.
  rewrite (compare_files_regular_files w f g data Readable data Readable Hf Hg).
  destruct (Nat.eq_dec (length data) (length data)); [|contradiction].
  destruct (bytes_eq_dec data data); [reflexivity | contradiction].
Qed.

Lemma identical_files_compare_sym : compare_files w g f = Ok true.
Proof.
  rewrite (compare_files_regular_files w g f data Readable data Readable Hg Hf).
  destruct (Nat.eq_dec (length data) (length data)); [|contradiction].
  destruct (bytes_eq_dec data data); [reflexivity | contradiction].
Qed.

Lemma identical_files_same_as current :
  same_as w current f = same_as w current g.
Proof.
  unfold same_as. rewrite (compare_files_same_node_r w current f g);
    [reflexivity|].
  unfold regular_file in Hf, Hg. rewrite Hf, Hg. reflexivity.
Qed.

(** Two readable regular files with one content stay together through a
    turn of the comparison loop: both join the group of the turn, or
    neither. *)
Lemma identical_files_one_turn current tl :
  In f (current :: tl) -> In g (current :: tl) ->
  let grp := current :: filter (same_as w current) tl in
  In f grp <-> In g grp.
Proof.
  intros Hfl Hgl grp. subst grp.
  destruct (path_eq_dec current f) as [->|Hcf].
  - split; [intros _|intros _; left; reflexivity].
    destruct Hgl as [Heq|Hgl]; [contradiction|].
    right. apply filter_In. split; [assumption|].
    unfold same_as. rewrite identical_files_compare. reflexivity.
  - destruct (path_eq_dec current g) as [->|Hcg].
    + split; [intros _; left; reflexivity|intros _].
      destruct Hfl as [Heq|Hfl]; [congruence|].
      right. apply filter_In. split; [assumption|].
      unfold same_as. rewrite identical_files_compare_sym. reflexivity.
    + destruct Hfl as [Heq|Hfl]; [contradiction|].
      destruct Hgl as [Heq|Hgl]; [contradiction|].
      split; intros [Heq|Hin]; try contradiction; right;
        apply filter_In in Hin; apply filter_In;
        (split; [assumption|]); destruct Hin as [_ Hs];
        [rewrite <- identical_files_same_as | rewrite identical_files_same_as];
        assumption.
Qed.

(** Away from empty files lost by the hash pipeline and from paths that
    make [stat] raise, the comparison pipeline does what C2 says: two
    distinct readable regular files with one content are together in
    exactly one group. *)
Lemma identical_files_together_comparing l gs :
  find_duplicate_files_by_comparing w l = Ok gs ->
  In f l -> In g l ->
  together gs f g /\ occurrences gs f = 1 /\ occurrences gs g = 1.
Proof.
  rewrite by_comparing_eq. intros H Hfl Hgl.
  assert (HI : (In f [] /\ In g []
                /\ occurrences gs f = 0 /\ occurrences gs g = 0)
               \/ (~ In f [] /\ ~ In g []
                   /\ together gs f g
                   /\ occurrences gs f = 1 /\ occurrences gs g = 1)).
  { apply (by_comparing_loop_invariant w
             (fun l groups =>
                (In f l /\ In g l
                 /\ occurrences groups f = 0 /\ occurrences groups g = 0)
                \/ (~ In f l /\ ~ In g l
                    /\ together groups f g
                    /\ occurrences groups f = 1 /\ occurrences groups g = 1)))
      with (n := length l) (l := l) (groups := []); auto.
    - intros current tl groups HI _ grp.
      assert (Hsub : forall x, In x grp -> In x (current :: tl)).
      { subst grp. intros x [<-|Hx]; [left; reflexivity|].
        apply filter_In in Hx. right. tauto. }
      destruct HI as [(Hf' & Hg' & Of & Og)|(Hf' & Hg' & Ht & Of & Og)].
      + pose proof (identical_files_one_turn current tl Hf' Hg') as Hiff.
        fold grp in Hiff.
        destruct (in_dec path_eq_dec f grp) as [Hin|Hout].
        * (* both join the group of this turn *)
          assert (Hin' : In g grp) by (apply Hiff; assumption).
          pose proof (two_members grp f g Hin Hin' Hfg) as Hlen.
          apply Nat.ltb_lt in Hlen. rewrite Hlen. right.
          rewrite !remove_group_In, !occurrences_app, Of, Og.
          rewrite (occurrences_one grp f Hin), (occurrences_one grp g Hin').
          repeat split; try tauto.
          exists grp. repeat split; try assumption.
          apply in_or_app. right. left. reflexivity.
        * (* neither does *)
          assert (Hout' : ~ In g grp) by (rewrite <- Hiff; assumption).
          left. rewrite !remove_group_In.
          assert (Hocc : forall x,
                     ~ In x grp -> occurrences groups x = 0 ->
                     occurrences
                       (if 1 <? length grp then groups ++ [grp] else groups) x
                     = 0).
          { intros x Hx Ox. destruct (1 <? length grp); [|assumption].
            rewrite occurrences_app, Ox. apply occurrences_none.
            intros g' [<-|[]]. assumption. }
          repeat split; auto.
      + right. rewrite !remove_group_In.
        assert (Hout : ~ In f grp) by (intros Hx; apply Hf', Hsub, Hx).
        assert (Hout' : ~ In g grp) by (intros Hx; apply Hg', Hsub, Hx).
        split; [tauto|]. split; [tauto|].
        destruct (1 <? length grp); [|tauto].
        rewrite !occurrences_app, Of, Og.
        rewrite !(occurrences_none [grp])
          by (intros g' [<-|[]]; assumption).
        repeat split; try lia.
        destruct Ht as (g0 & Hg0 & Hx & Hy). exists g0.
        repeat split; try assumption. apply in_or_app. left. assumption. }
  destruct HI as [([] & _)|(_ & _ & Ht)]. exact Ht.
Qed.

Hypothesis Hdata : data <> [].
Hypothesis Hmd5 : md5_hexdigest w data <> EmptyString.

Lemma identical_files_size_key :
  size_key w f = Ok (PyInt (Z.of_nat (length data)))
  /\ size_key w g = Ok (PyInt (Z.of_nat (length data)))
  /\ truthy (PyInt (Z.of_nat (length data))) = true.
Proof.
  unfold size_key.
  rewrite (getsize_regular_file w f data Readable Hf).
  rewrite (getsize_regular_file w g data Readable Hg).
  repeat split. cbn [truthy]. apply negb_true_iff, Z.eqb_neq.
  destruct data; [contradiction | simpl; lia].
Qed.

Lemma identical_files_checksum :
  get_file_checksum w f = Ok (PyStr (md5_hexdigest w data))
  /\ get_file_checksum w g = Ok (PyStr (md5_hexdigest w data))
  /\ truthy (PyStr (md5_hexdigest w data)) = true.
Proof.
  rewrite (get_file_checksum_readable w f data Hf).
  rewrite (get_file_checksum_readable w g data Hg).
  repeat split. cbn [truthy]. apply negb_true_iff, String.eqb_neq.
  assumption.
Qed.

(** The hash pipeline does the same when it returns, for a content that
    is not empty and whose digest is not the empty string (no MD5 digest
    is). *)
Lemma identical_files_together_hash l gs :
  find_duplicate_files w l = Ok gs ->
  In f l -> In g l ->
  together gs f g /\ occurrences gs f = 1 /\ occurrences gs g = 1.
Proof.
  intros H Hfl Hgl.
  assert (Hle : forall x, occurrences gs x <= 1).
  { intros x. apply find_duplicate_files_ok in H.
    destruct H as (sgs & parts & Hs & Hp & ->).
    rewrite group_files_by_size_eq in Hs.
    pose proof (group_files_occurrences (size_key w) l sgs x Hs) as Hocc.
    clear Hs. induction Hp as [|sg cg sgs parts Hc Hp IH];
      [unfold occurrences; simpl; lia|].
    cbn [concat]. rewrite occurrences_app. rewrite occurrences_cons in Hocc.
    assert (Hsub : forall grp, In grp cg -> In x grp -> In x sg).
    { intros grp Hgrp Hx.
      apply (group_files_member (get_file_checksum w) sg cg grp x Hc Hgrp Hx). }
    destruct (in_dec path_eq_dec x sg) as [Hin|Hout].
    - pose proof (group_files_occurrences (get_file_checksum w) sg cg x Hc).
      assert (Hz : occurrences sgs x = 0) by lia.
      rewrite (occurrences_none (concat parts) x); [lia|].
      intros grp Hgrp Hx. apply in_concat in Hgrp.
      destruct Hgrp as [cg' [Hcg' Hgrp]].
      clear IH Hocc. induction Hp as [|sg' cg'' sgs parts Hc' Hp IH];
        [contradiction|].
      rewrite occurrences_cons in Hz.
      destruct (in_dec path_eq_dec x sg') as [|Hout']; [discriminate|].
      destruct Hcg' as [->|Hcg'].
      + apply Hout'.
        apply (group_files_member (get_file_checksum w) sg' cg' grp x
                 Hc' Hgrp Hx).
      + apply IH; assumption.
    - rewrite (occurrences_none cg x); [apply IH; lia|].
      intros grp Hgrp Hx. apply Hout. eapply Hsub; eassumption. }
  assert (Ht : together gs f g).
  { clear Hle. apply find_duplicate_files_ok in H.
    destruct H as (sgs & parts & Hs & Hp & ->).
    rewrite group_files_by_size_eq in Hs.
    destruct identical_files_size_key as (Kf & Kg & Kt).
    destruct (group_files_together (size_key w) l sgs f g _ Hs Hfl Hgl Hfg
                Kf Kg Kt) as (sg & Hsg & Hfs & Hgs).
    destruct identical_files_checksum as (Cf & Cg & Ct).
    clear Hs. induction Hp as [|sg' cg sgs parts Hc Hp IH]; [contradiction|].
    destruct Hsg as [->|Hsg].
    - destruct (group_files_together (get_file_checksum w) sg cg f g _ Hc
                  Hfs Hgs Hfg Cf Cg Ct) as (grp & Hgrp & Hx & Hy).
      exists grp. repeat split; try assumption.
      cbn [concat]. apply in_or_app. left. assumption.
    - destruct (IH Hsg) as (grp & Hgrp & Hx & Hy).
      exists grp. repeat split; try assumption.
      cbn [concat]. apply in_or_app. right. assumption. }
  split; [assumption|].
  destruct Ht as (grp & Hgrp & Hx & Hy).
  pose proof (occurrences_pos gs grp f Hgrp Hx).
  pose proof (occurrences_pos gs grp g Hgrp Hy).
  pose proof (Hle f). pose proof (Hle g). lia.
Qed.

End IdenticalFiles.

(* ===================================================================== *)
(** ** The claims                                                         *)
(* ===================================================================== *)

Import Samples.

Lemma falsy_values k :
  truthy k = false <-> k = PyNone \/ k = PyInt 0 \/ k = PyStr EmptyString.
Proof.
  split.
  - destruct k as [|z|s]; simpl; intros H; auto.
    + apply negb_false_iff, Z.eqb_eq in H. subst. auto.
    + apply negb_false_iff, String.eqb_eq in H. subst. auto.
  - intros [-> | [-> | ->]]; reflexivity.
Qed.

(** The hash pipeline never reports a file of length zero. *)
Lemma find_duplicate_files_drops_empty w l gs x :
  find_duplicate_files w l = Ok gs ->
  getsize w x = Ok 0%Z ->
  forall g, In g gs -> ~ In x g.
Proof.
  intros H Hx g Hg Hin.
  destruct (find_duplicate_files_size w l gs g H Hg) as [n [Hn Hall]].
  destruct (Hall x Hin) as [_ Hs]. congruence.
Qed.

(** C1 (code at the failing input). A directory with two empty regular
    files and nothing else: the hash pipeline returns no group at all,
    because the size [0] of an empty file is a falsy key for
    [group_files]; the comparison pipeline returns the two files as one
    group. *)
Theorem empty_files_hash_pipeline :
  scan_files (sample_os empty_tree) "d"%string = [e1; e2]
  /\ main_hash (sample_os empty_tree) "d"%string = Ok []
  /\ main_compare (sample_os empty_tree) "d"%string = Ok [[e1; e2]].
Proof.
  repeat split; vm_compute; reflexivity.
Qed.

(** C2 (code at the failing input). Two empty regular files have the same
    content, and the hash pipeline puts them in no group, while it groups
    the two copies of a non-empty text next to them; the comparison
    pipeline groups both pairs. *)
Theorem identical_empty_files_apart :
  regular_file (sample_os mixed_tree) e1 [] Readable
  /\ regular_file (sample_os mixed_tree) e2 [] Readable
  /\ find_duplicate_files (sample_os mixed_tree) [e1; e2; a_txt; b_txt]
     = Ok [[a_txt; b_txt]]
  /\ ~ together [[a_txt; b_txt]] e1 e2
  /\ find_duplicate_files_by_comparing (sample_os mixed_tree)
       [e1; e2; a_txt; b_txt]
     = Ok [[e1; e2]; [a_txt; b_txt]].
Proof.
  repeat split; try (vm_compute; reflexivity).
  intros [g [[<-|[]] [[H|[H|[]]] _]]]; discriminate H.
Qed.

(** C3 (code at the failing input). A list with a path that no longer
    exists: [getsize] raises [OSError] and, [group_files] having no
    handler, so does [group_files_by_size]; the two other files, which
    have one size, are not grouped. On the same list the checksum
    grouping, whose key function catches the exception, drops the path
    and groups the rest. *)
Theorem size_probe_failure_raises :
  getsize (sample_os mixed_tree) gone = Raise OSError
  /\ group_files_by_size (sample_os mixed_tree) [a_txt; gone; b_txt]
     = Raise OSError
  /\ group_files_by_checksum (sample_os mixed_tree) [a_txt; gone; b_txt]
     = Ok [[a_txt; b_txt]].
Proof.
  repeat split; vm_compute; reflexivity.
Qed.

(** C4 (code at the failing input). [compare_files] calls [stat] outside
    the [try] block of [_do_compare]: with a path that does not exist, on
    either side, it raises [OSError] instead of answering [False]. *)
Theorem stat_failure_raises :
  stat (sample_os mixed_tree) gone = Raise OSError
  /\ compare_files (sample_os mixed_tree) a_txt gone = Raise OSError
  /\ compare_files (sample_os mixed_tree) gone a_txt = Raise OSError.
Proof.
  repeat split; vm_compute; reflexivity.
Qed.

(** C5. On two regular files [compare_files] never raises. It answers
    [False] when the sizes differ, whatever opening or reading the files
    would do. With equal sizes the answer is that of the chunk loop of
    [_do_compare]: [False] when the contents differ, and for equal
    contents [True] exactly when both files can be opened and deliver all
    the reads of the loop, a failing read giving [False]. The loop reads
    one chunk of [BUFSIZE] = 8192 bytes from each file per turn, answers
    [False] at the first pair of chunks that differ and [True] when both
    chunks are empty. *)
Theorem compare_files_chunked w f1 f2 d1 io1 d2 io2 :
  regular_file w f1 d1 io1 ->
  regular_file w f2 d2 io2 ->
  (exists b, compare_files w f1 f2 = Ok b)
  /\ (length d1 <> length d2 -> compare_files w f1 f2 = Ok false)
  /\ (length d1 = length d2 ->
      compare_files w f1 f2 = _do_compare w f1 f2
      /\ (d1 <> d2 -> compare_files w f1 f2 = Ok false)
      /\ (d1 = d2 ->
          compare_files w f1 f2
          = Ok (delivers io1 (reads_needed BUFSIZE (length d1))
                && delivers io2 (reads_needed BUFSIZE (length d1)))))
  /\ Z.of_nat BUFSIZE = 8192%Z
  /\ (forall fp1 fp2,
         _do_compare_loop BUFSIZE fp1 fp2 =
         match read fp1 BUFSIZE with
         | Raise e => Raise e
         | Ok (b1, fp1') =>
             match read fp2 BUFSIZE with
             | Raise e => Raise e
             | Ok (b2, fp2') =>
                 if bytes_eq_dec b1 b2
                 then match b1 with
                      | [] => Ok true
                      | _ :: _ => _do_compare_loop BUFSIZE fp1' fp2'
                      end
                 else Ok false
             end
         end).
Proof.
  intros R1 R2.
  pose proof (compare_files_regular_files w f1 f2 d1 io1 d2 io2 R1 R2) as Hc.
  split; [rewrite Hc; eauto|].
  split.
  { intros Hne. rewrite Hc.
    destruct (Nat.eq_dec (length d1) (length d2)); [contradiction|].
    reflexivity. }
  split.
  { intros Hl. split; [|split].
    - rewrite compare_files_eq.
      rewrite (stat_regular_file w f1 d1 io1 R1).
      rewrite (stat_regular_file w f2 d2 io2 R2).
      cbn [bind st_mode st_size].
      replace (S_IFMT S_IFREG =? S_IFREG)%Z with true by reflexivity.
      rewrite Hl, Z.eqb_refl. cbn [negb orb]. reflexivity.
    - intros Hd. rewrite Hc.
      destruct (Nat.eq_dec (length d1) (length d2)); [|reflexivity].
      destruct (bytes_eq_dec d1 d2); [contradiction | reflexivity].
    - intros Hd. rewrite Hc. subst d2.
      destruct (Nat.eq_dec (length d1) (length d1)); [|contradiction].
      destruct (bytes_eq_dec d1 d1); [reflexivity | contradiction]. }
  split; [reflexivity|].
  intros fp1 fp2. apply _do_compare_loop_unfold.
Qed.

(** C6. Two files whose sizes differ are never members of one group,
    neither in the result of the hash pipeline nor in that of the
    comparison pipeline. *)
Theorem different_sizes_never_together w l gs f g n m :
  find_duplicate_files w l = Ok gs
  \/ find_duplicate_files_by_comparing w l = Ok gs ->
  getsize w f = Ok n ->
  getsize w g = Ok m ->
  n <> m ->
  ~ together gs f g.
Proof.
  intros H Hf Hg Hne (grp & Hin & Hfg & Hgg).
  assert (Hs : exists k, forall x, In x grp -> getsize w x = Ok k).
  { destruct H as [H|H].
    - destruct (find_duplicate_files_size w l gs grp H Hin) as [k [_ Hk]].
      exists k. intros x Hx. apply Hk. assumption.
    - apply (by_comparing_size w l gs H grp Hin). }
  destruct Hs as [k Hk].
  pose proof (Hk f Hfg). pose proof (Hk g Hgg). congruence.
Qed.

(** C7. No path returned by [scan_files] is a symbolic link, and every
    one of them names an entry of a directory reached from the root of
    the scan through directories only: the walk enters no symbolic
    link. *)
Theorem scan_files_no_symlink w path x :
  In x (scan_files w path) ->
  islink w x = false
  /\ exists top rel size es f,
      resolve (fs_root w) SYMLOOP_MAX true (abspath w (expanduser w path))
      = Some top
      /\ descends top rel (Dir size es)
      /\ In f (filenames w es)
      /\ x = join (abspath w (expanduser w path) ++ rel) f.
Proof.
  intros H. apply scan_files_In in H.
  destruct H as [Hl (root & dirs & files & f & Ht & Hf & ->)].
  split; [assumption|].
  unfold walk in Ht.
  destruct (resolve (fs_root w) SYMLOOP_MAX true
              (abspath w (expanduser w path))) as [top|]; [|contradiction].
  destruct (walk_node_descends w top _ _ _ _ Ht)
    as (rel & size & es & -> & Hd & _ & ->).
  exists top, rel, size, es, f. auto.
Qed.

(** C8. Every group returned by [group_files], and so by
    [group_files_by_size], [group_files_by_checksum],
    [find_duplicate_files] and [find_duplicate_files_by_comparing], has
    two members or more. *)
Theorem groups_have_two_members w l func gs :
  group_files l func = Ok gs
  \/ group_files_by_size w l = Ok gs
  \/ group_files_by_checksum w l = Ok gs
  \/ find_duplicate_files w l = Ok gs
  \/ find_duplicate_files_by_comparing w l = Ok gs ->
  forall g, In g gs -> 2 <= length g.
Proof.
  intros H g Hg.
  assert (Hgf : forall func' l' gs',
             group_files l' func' = Ok gs' ->
             forall g', In g' gs' -> 2 <= length g').
  { intros func' l' gs' H' g' Hg'.
    destruct (group_files_group func' l' gs' g' H' Hg') as [_ [_ Hlen]].
    assumption. }
  destruct H as [H|[H|[H|[H|H]]]].
  - exact (Hgf func l gs H g Hg).
  - exact (Hgf _ l gs H g Hg).
  - exact (Hgf _ l gs H g Hg).
  - destruct (find_duplicate_files_group w l gs g H Hg)
      as (sgs & sg & cg & _ & _ & Hc & Hcg).
    exact (Hgf _ sg cg Hc g Hcg).
  - exact (by_comparing_two w l gs H g Hg).
Qed.

(** C9. [group_files] leaves an item out of every group as soon as its
    key is falsy: [None], but the integer [0] and the empty string just
    as well. *)
Theorem falsy_key_excluded l func gs x k :
  group_files l func = Ok gs ->
  func x = Ok k ->
  k = PyNone \/ k = PyInt 0 \/ k = PyStr EmptyString ->
  truthy k = false /\ forall g, In g gs -> ~ In x g.
Proof.
  intros H Hk Hfalsy. apply falsy_values in Hfalsy.
  split; [assumption|]. intros g Hg Hx.
  destruct (group_files_member func l gs g x H Hg Hx)
    as [_ (k' & Hk' & Ht & _)].
  congruence.
Qed.

(** C10. On a list of distinct paths the groups of the comparison
    pipeline are pairwise disjoint: no path is a member of two groups,
    nor twice a member of one. *)
Theorem by_comparing_groups_disjoint w l gs :
  NoDup l ->
  find_duplicate_files_by_comparing w l = Ok gs ->
  NoDup (concat gs)
  /\ (forall x, occurrences gs x <= 1)
  /\ (forall i j gi gj x,
         i <> j ->
         nth_error gs i = Some gi -> nth_error gs j = Some gj ->
         In x gi -> ~ In x gj).
Proof.
  intros Hl H. pose proof (by_comparing_nodup w l gs Hl H) as Hn.
  split; [assumption|]. split.
  - intros x. apply occurrences_nodup. assumption.
  - apply nodup_concat_apart. assumption.
Qed.

(* ===================================================================== *)
(** ** The theorems at work on the sample trees                           *)
(* ===================================================================== *)

(** [compare_files_chunked] on the two copies of the mixed tree. *)
Lemma compare_files_chunked_witness :
  regular_file (sample_os mixed_tree) a_txt hello Readable
  /\ regular_file (sample_os mixed_tree) b_txt hello Readable
  /\ compare_files (sample_os mixed_tree) a_txt b_txt = Ok true.
Proof.
  assert (R1 : regular_file (sample_os mixed_tree) a_txt hello Readable)
    by (vm_compute; reflexivity).
  assert (R2 : regular_file (sample_os mixed_tree) b_txt hello Readable)
    by (vm_compute; reflexivity).
  split; [exact R1|]. split; [exact R2|].
  destruct (compare_files_chunked (sample_os mixed_tree) a_txt b_txt
              hello Readable hello Readable R1 R2) as (_ & _ & Heq & _).
  destruct (Heq eq_refl) as (_ & _ & Hsame).
  rewrite (Hsame eq_refl). reflexivity.
Defined.

(** [different_sizes_never_together] on a text of five bytes and one of
    ten. *)
Lemma different_sizes_never_together_witness :
  find_duplicate_files (sample_os mixed_tree) [a_txt; long_txt; b_txt]
  = Ok [[a_txt; b_txt]]
  /\ getsize (sample_os mixed_tree) a_txt = Ok 5%Z
  /\ getsize (sample_os mixed_tree) long_txt = Ok 10%Z
  /\ 5%Z <> 10%Z
  /\ ~ together [[a_txt; b_txt]] a_txt long_txt.
Proof.
  assert (H : find_duplicate_files (sample_os mixed_tree)
                [a_txt; long_txt; b_txt] = Ok [[a_txt; b_txt]])
    by (vm_compute; reflexivity).
  assert (Ha : getsize (sample_os mixed_tree) a_txt = Ok 5%Z)
    by (vm_compute; reflexivity).
  assert (Hb : getsize (sample_os mixed_tree) long_txt = Ok 10%Z)
    by (vm_compute; reflexivity).
  assert (Hne : 5%Z <> 10%Z) by lia.
  repeat (split; [assumption|]).
  exact (different_sizes_never_together (sample_os mixed_tree)
           [a_txt; long_txt; b_txt] [[a_txt; b_txt]] a_txt long_txt
           5%Z 10%Z (or_introl H) Ha Hb Hne).
Defined.

(** [scan_files_no_symlink] on the first copy of the mixed tree. *)
Lemma scan_files_no_symlink_witness :
  In a_txt (scan_files (sample_os mixed_tree) "d"%string)
  /\ islink (sample_os mixed_tree) a_txt = false.
Proof.
  assert (H : In a_txt (scan_files (sample_os mixed_tree) "d"%string))
    by (vm_compute; left; reflexivity).
  split; [exact H|].
  exact (proj1 (scan_files_no_symlink (sample_os mixed_tree) "d"%string
                  a_txt H)).
Defined.

(** [groups_have_two_members] on the result of the hash pipeline. *)
Lemma groups_have_two_members_witness :
  find_duplicate_files (sample_os hello_tree) [a_txt; b_txt; c_txt]
  = Ok [[a_txt; b_txt]]
  /\ In [a_txt; b_txt] [[a_txt; b_txt]]
  /\ 2 <= length [a_txt; b_txt].
Proof.
  assert (H : find_duplicate_files (sample_os hello_tree)
                [a_txt; b_txt; c_txt] = Ok [[a_txt; b_txt]])
    by (vm_compute; reflexivity).
  assert (Hg : In [a_txt; b_txt] [[a_txt; b_txt]]) by (left; reflexivity).
  split; [exact H|]. split; [exact Hg|].
  exact (groups_have_two_members (sample_os hello_tree)
           [a_txt; b_txt; c_txt] (size_key (sample_os hello_tree))
           [[a_txt; b_txt]]
           (or_intror (or_intror (or_intror (or_introl H))))
           [a_txt; b_txt] Hg).
Defined.

(** [falsy_key_excluded] on an empty file grouped by size. *)
Lemma falsy_key_excluded_witness :
  group_files [e1; e2; a_txt; b_txt] (size_key (sample_os mixed_tree))
  = Ok [[a_txt; b_txt]]
  /\ size_key (sample_os mixed_tree) e1 = Ok (PyInt 0)
  /\ (PyInt 0 = PyNone \/ PyInt 0 = PyInt 0 \/ PyInt 0 = PyStr EmptyString)
  /\ ~ In e1 [a_txt; b_txt].
Proof.
  assert (H : group_files [e1; e2; a_txt; b_txt]
                (size_key (sample_os mixed_tree)) = Ok [[a_txt; b_txt]])
    by (vm_compute; reflexivity).
  assert (Hk : size_key (sample_os mixed_tree) e1 = Ok (PyInt 0))
    by (vm_compute; reflexivity).
  assert (Hz : PyInt 0 = PyNone \/ PyInt 0 = PyInt 0
               \/ PyInt 0 = PyStr EmptyString)
    by (right; left; reflexivity).
  repeat (split; [assumption|]).
  exact (proj2 (falsy_key_excluded [e1; e2; a_txt; b_txt]
                  (size_key (sample_os mixed_tree)) [[a_txt; b_txt]]
                  e1 (PyInt 0) H Hk Hz)
           [a_txt; b_txt] (or_introl eq_refl)).
Defined.

(** [by_comparing_groups_disjoint] on four distinct paths. *)
Lemma by_comparing_groups_disjoint_witness :
  NoDup [e1; e2; a_txt; b_txt]
  /\ find_duplicate_files_by_comparing (sample_os mixed_tree)
       [e1; e2; a_txt; b_txt]
     = Ok [[e1; e2]; [a_txt; b_txt]]
  /\ NoDup (concat [[e1; e2]; [a_txt; b_txt]]).
Proof.
  assert (Hn : NoDup [e1; e2; a_txt; b_txt]).
  { repeat constructor; simpl; intuition discriminate. }
  assert (H : find_duplicate_files_by_comparing (sample_os mixed_tree)
                [e1; e2; a_txt; b_txt] = Ok [[e1; e2]; [a_txt; b_txt]])
    by (vm_compute; reflexivity).
  split; [exact Hn|]. split; [exact H|].
  exact (proj1 (by_comparing_groups_disjoint (sample_os mixed_tree)
                  [e1; e2; a_txt; b_txt] [[e1; e2]; [a_txt; b_txt]] Hn H)).
Defined.

(** The scenario of two copies, a third text and a symbolic link to the
    first copy: both pipelines return the two copies and nothing else. *)
Example two_copies_and_a_link :
  scan_files (sample_os hello_tree) "d"%string = [a_txt; b_txt; c_txt]
  /\ islink (sample_os hello_tree) link_txt = true
  /\ main_hash (sample_os hello_tree) "d"%string = Ok [[a_txt; b_txt]]
  /\ main_compare (sample_os hello_tree) "d"%string = Ok [[a_txt; b_txt]].
Proof.
  repeat split; vm_compute; reflexivity.
Qed.

(** Files that cannot be opened or read are left out by both pipelines,
    without an error. *)
Example unreadable_copies_left_out :
  find_duplicate_files (sample_os mixed_tree)
    [a_txt; locked_txt; faulty_txt; b_txt]
  = Ok [[a_txt; b_txt]]
  /\ find_duplicate_files_by_comparing (sample_os mixed_tree)
       [a_txt; locked_txt; faulty_txt; b_txt]
     = Ok [[a_txt; b_txt]].
Proof.
  repeat split; vm_compute; reflexivity.
Qed.

(* ===================================================================== *)
(** ** More on [group_files]                                              *)
(* ===================================================================== *)

Section GroupFilesShape.

Variable func : path -> result value.

Lemma group_files_loop_keys l :
  forall d d',
    group_files_loop func l d = Ok d' ->
    keys d' = first_keys func l (keys d).
Proof.
  induction l as [|x l IH]; cbn [group_files_loop first_keys]; intros d d' H.
  - inversion H. reflexivity.
  - destruct (func x) as [k|e]; cbn [bind] in H; [|discriminate].
    destruct (truthy k); [|apply IH; assumption].
    apply IH in H. rewrite H, keys_setdefault_append.
    destruct (in_dec value_eq_dec k (keys d)); reflexivity.
Qed.

Lemma dict_of_keys (F : value -> list path) (d : dict path) :
  (forall k g, In (k, g) d -> g = F k) ->
  values d = map F (keys d).
Proof.
  unfold values, keys. induction d as [|[k g] d IH]; intros H;
    [reflexivity|].
  cbn [map fst snd]. rewrite (H k g (or_introl eq_refl)). f_equal.
  apply IH. intros k' g' Hin. apply H. right. assumption.
Qed.

(** X1. When [group_files] returns, its result is the comprehension
    [groups_of]: one group per truthy key with two items or more, the
    groups in the order in which their keys are first met, the members in
    the order of the input. *)
Theorem group_files_is_groups_of l gs :
  group_files l func = Ok gs -> gs = groups_of func l.
Proof.
  intros H. unfold group_files in H.
  destruct (group_files_loop func l []) as [d|e] eqn:Hloop;
    cbn [bind] in H; [|discriminate].
  inversion H; subst gs. unfold groups_of.
  pose proof (group_files_loop_keys l [] d Hloop) as Hk.
  pose proof (group_files_loop_grouped func l [] [] d (grouped_nil func) Hloop)
    as [_ He _].
  cbn [app keys map] in Hk. cbn [app] in He.
  rewrite (dict_of_keys (fun k => filter (has_key func k) l) d He).
  rewrite Hk. reflexivity.
Qed.

(** X2. [group_files] returns exactly when the key function returns on
    every item: an exception on one item leaves the whole call, whatever
    was grouped before. *)
Theorem group_files_returns_iff l :
  (exists gs, group_files l func = Ok gs)
  <-> forall x, In x l -> exists k, func x = Ok k.
Proof.
  split.
  - intros [gs H] x Hx. destruct (func x) as [k|e] eqn:Hf; [eauto|].
    destruct (group_files_raise func l x e Hx Hf) as [e' He']. congruence.
  - apply group_files_total.
Qed.

End GroupFilesShape.

(* ===================================================================== *)
(** ** More on the comparison of two files                                *)
(* ===================================================================== *)

Section CompareMore.

Variable w : os.

Lemma regular_file_unique p d io d' io' :
  regular_file w p d io -> regular_file w p d' io' -> d = d' /\ io = io'.
Proof.
  unfold regular_file. intros H H'. rewrite H in H'.
  inversion H'. auto.
Qed.

(** A positive answer, completely: two regular files with one content
    that both deliver every read of the loop. *)
Lemma compare_files_true_iff f1 f2 :
  compare_files w f1 f2 = Ok true
  <-> exists data io1 io2,
      regular_file w f1 data io1 /\ regular_file w f2 data io2
      /\ delivers io1 (reads_needed BUFSIZE (length data)) = true
      /\ delivers io2 (reads_needed BUFSIZE (length data)) = true.
Proof.
  split.
  - intros H. pose proof H as H0. apply compare_files_true in H.
    destruct H as (d1 & io1 & d2 & io2 & R1 & R2 & _ & <-).
    rewrite (compare_files_regular_files w f1 f2 d1 io1 d1 io2 R1 R2) in H0.
    destruct (Nat.eq_dec (length d1) (length d1)); [|contradiction].
    destruct (bytes_eq_dec d1 d1); [|contradiction].
    exists d1, io1, io2.
    destruct (delivers io1 _); [|discriminate].
    destruct (delivers io2 _); [|discriminate]. auto.
  - intros (data & io1 & io2 & R1 & R2 & D1 & D2).
    rewrite (compare_files_regular_files w f1 f2 data io1 data io2 R1 R2).
    destruct (Nat.eq_dec (length data) (length data)); [|contradiction].
    destruct (bytes_eq_dec data data); [|contradiction].
    rewrite D1, D2. reflexivity.
Qed.

Lemma compare_files_not_regular f1 f2 n1 n2 :
  resolve (fs_root w) SYMLOOP_MAX true f1 = Some n1 ->
  resolve (fs_root w) SYMLOOP_MAX true f2 = Some n2 ->
  (forall d io, n1 <> Reg d io) \/ (forall d io, n2 <> Reg d io) ->
  compare_files w f1 f2 = Ok false.
Proof.
  intros H1 H2 Hn. rewrite compare_files_eq. unfold stat. rewrite H1, H2.
  cbn [bind].
  destruct n1 as [d1 io1| |s1 es1|t1]; destruct n2 as [d2 io2| |s2 es2|t2];
    try reflexivity.
  destruct Hn as [Hn|Hn]; [exfalso; apply (Hn d1 io1) | exfalso; apply (Hn d2 io2)];
    reflexivity.
Qed.

(** X3. [compare_files] does not depend on the order of its arguments:
    it gives the same answer, or raises, both ways. *)
Theorem compare_files_symmetric f1 f2 :
  compare_files w f1 f2 = compare_files w f2 f1.
Proof.
  destruct (resolve (fs_root w) SYMLOOP_MAX true f1) as [n1|] eqn:H1.
  - destruct (resolve (fs_root w) SYMLOOP_MAX true f2) as [n2|] eqn:H2.
    + destruct n1 as [d1 io1| |s1 es1|t1].
      * destruct n2 as [d2 io2| |s2 es2|t2];
          try (rewrite (compare_files_not_regular f1 f2 _ _ H1 H2)
                 by (right; intros; discriminate);
               rewrite (compare_files_not_regular f2 f1 _ _ H2 H1)
                 by (left; intros; discriminate);
               reflexivity).
        rewrite (compare_files_regular_files w f1 f2 d1 io1 d2 io2 H1 H2).
        rewrite (compare_files_regular_files w f2 f1 d2 io2 d1 io1 H2 H1).
        f_equal.
        destruct (Nat.eq_dec (length d1) (length d2)) as [E|E];
          destruct (Nat.eq_dec (length d2) (length d1)) as [E'|E'];
          try congruence.
        destruct (bytes_eq_dec d1 d2) as [D|D];
          destruct (bytes_eq_dec d2 d1) as [D'|D']; try congruence.
        -- cbn [andb]. apply andb_comm.
        -- reflexivity.
      * rewrite (compare_files_not_regular f1 f2 _ _ H1 H2)
          by (left; intros; discriminate).
        rewrite (compare_files_not_regular f2 f1 _ _ H2 H1)
          by (right; intros; discriminate).
        reflexivity.
      * rewrite (compare_files_not_regular f1 f2 _ _ H1 H2)
          by (left; intros; discriminate).
        rewrite (compare_files_not_regular f2 f1 _ _ H2 H1)
          by (right; intros; discriminate).
        reflexivity.
      * rewrite (compare_files_not_regular f1 f2 _ _ H1 H2)
          by (left; intros; discriminate).
        rewrite (compare_files_not_regular f2 f1 _ _ H2 H1)
          by (right; intros; discriminate).
        reflexivity.
    + rewrite !compare_files_eq. unfold stat. rewrite H1, H2. reflexivity.
  - rewrite !compare_files_eq. unfold stat. rewrite H1.
    destruct (resolve (fs_root w) SYMLOOP_MAX true f2); reflexivity.
Qed.

(** X4. Positive answers of [compare_files] are transitive, and a file
    that compares equal to another compares equal to itself: the files on
    which it answers [True] fall into classes. *)
Theorem compare_files_transitive f1 f2 f3 :
  compare_files w f1 f2 = Ok true ->
  compare_files w f2 f3 = Ok true ->
  compare_files w f1 f3 = Ok true /\ compare_files w f1 f1 = Ok true.
Proof.
  intros H12 H23.
  apply compare_files_true_iff in H12, H23.
  destruct H12 as (d & io1 & io2 & R1 & R2 & D1 & D2).
  destruct H23 as (d' & io2' & io3 & R2' & R3 & D2' & D3).
  destruct (regular_file_unique f2 d io2 d' io2' R2 R2') as [<- <-].
  split; apply compare_files_true_iff.
  - exists d, io1, io3. auto.
  - exists d, io1, io1. auto.
Qed.

(** The chunk loop never raises on two file objects without a fault. *)
Lemma _do_compare_loop_sound_files bufsize :
  forall n fp1 fp2,
    length (unread fp1) <= n ->
    good_reads fp1 = None -> good_reads fp2 = None ->
    exists b, _do_compare_loop bufsize fp1 fp2 = Ok b.
Proof.
  induction n as [|n IH]; intros fp1 fp2 Hlen G1 G2;
    rewrite _do_compare_loop_unfold; unfold read; rewrite G1, G2;
    destruct (bytes_eq_dec _ _); eauto;
    destruct (firstn bufsize (unread fp1)) as [|x b] eqn:F; eauto.
  - destruct (unread fp1); [rewrite firstn_nil in F; discriminate|].
    simpl in Hlen. lia.
  - apply IH; cbn [after_read unread good_reads]; rewrite ?G1, ?G2;
      try reflexivity.
    destruct bufsize; [discriminate|].
    destruct (unread fp1) as [|y u]; [discriminate|].
    cbn [skipn]. simpl in Hlen. rewrite length_skipn. lia.
Qed.

(** X5. Whatever the positive size of the chunks, the loop of
    [_do_compare] decides the equality of what is left to read of two
    files without a fault, be they of one length or not. *)
Theorem _do_compare_loop_decides_equality bufsize fp1 fp2 :
  0 < bufsize ->
  good_reads fp1 = None -> good_reads fp2 = None ->
  _do_compare_loop bufsize fp1 fp2
  = Ok (if bytes_eq_dec (unread fp1) (unread fp2) then true else false).
Proof.
  intros Hb G1 G2.
  destruct (_do_compare_loop_sound_files bufsize (length (unread fp1))
              fp1 fp2 (le_n _) G1 G2) as [b Hbres].
  pose proof (_do_compare_loop_true bufsize Hb (length (unread fp1))
                fp1 fp2 (le_n _)) as Hiff.
  rewrite Hbres in *. f_equal.
  destruct (bytes_eq_dec (unread fp1) (unread fp2)) as [E|E].
  - destruct Hiff as [_ Hiff].
    assert (Ht : @Ok bool b = Ok true).
    { apply Hiff. unfold enough. rewrite G1, G2. auto. }
    inversion Ht. reflexivity.
  - destruct b; [|reflexivity].
    destruct Hiff as [Hiff _]. destruct (Hiff eq_refl) as [Hu _].
    contradiction.
Qed.

End CompareMore.

(* ===================================================================== *)
(** ** More on the two pipelines                                          *)
(* ===================================================================== *)

Section PipelinesMore.

Variable w : os.

Lemma get_file_checksum_eq p :
  get_file_checksum w p
  = Ok (match readable_content w p with
        | Some data => PyStr (md5_hexdigest w data)
        | None => PyNone
        end).
Proof.
  unfold get_file_checksum, readable_content, open_rb.
  destruct (resolve (fs_root w) SYMLOOP_MAX true p)
    as [[data [| |[|k]]| |size es|t]|]; reflexivity.
Qed.

Lemma readable_content_regular p data :
  readable_content w p = Some data ->
  exists io, regular_file w p data io.
Proof.
  unfold readable_content, regular_file.
  destruct (resolve (fs_root w) SYMLOOP_MAX true p)
    as [[d [| |[|k]]| |size es|t]|]; intros H; inversion H; subst; eauto.
Qed.

Lemma regular_file_readable_content p data :
  regular_file w p data Readable -> readable_content w p = Some data.
Proof.
  unfold readable_content, regular_file. intros ->. reflexivity.
Qed.

Lemma checksum_key_content p k :
  has_key (get_file_checksum w) k p = true ->
  exists data,
    readable_content w p = Some data /\ k = PyStr (md5_hexdigest w data).
Proof.
  intros H. apply has_key_inv in H. destruct H as [Hk Ht].
  rewrite get_file_checksum_eq in Hk.
  destruct (readable_content w p) as [data|]; inversion Hk; subst.
  - eauto.
  - discriminate.
Qed.

Lemma find_duplicate_files_members l gs g :
  find_duplicate_files w l = Ok gs ->
  In g gs ->
  exists n digest,
    n <> 0
    /\ forall x, In x g ->
         In x l
         /\ exists data,
             readable_content w x = Some data
             /\ length data = n
             /\ md5_hexdigest w data = digest.
Proof.
  intros H Hg.
  destruct (find_duplicate_files_size w l gs g H Hg) as [z [Hz Hsize]].
  destruct (find_duplicate_files_group w l gs g H Hg)
    as (sgs & sg & cg & _ & _ & Hc & Hcg).
  destruct (group_files_group (get_file_checksum w) sg cg g Hc Hcg)
    as [k [Hk _]].
  assert (Hmem : forall x, In x g ->
             In x l /\ getsize w x = Ok z
             /\ exists data, readable_content w x = Some data
                             /\ k = PyStr (md5_hexdigest w data)).
  { intros x Hx. destruct (Hsize x Hx) as [Hl Hs].
    split; [assumption|]. split; [assumption|].
    rewrite Hk in Hx. apply filter_In in Hx. destruct Hx as [_ Hkey].
    apply checksum_key_content. assumption. }
  destruct g as [|x0 g'].
  - exists 1, EmptyString. split; [lia | contradiction].
  - destruct (Hmem x0 (or_introl eq_refl)) as (_ & Hs0 & d0 & Hc0 & Hk0).
    exists (length d0), (md5_hexdigest w d0).
    destruct (readable_content_regular x0 d0 Hc0) as [io0 R0].
    rewrite (getsize_regular_file w x0 d0 io0 R0) in Hs0.
    inversion Hs0; subst z.
    split; [lia|]. intros x Hx.
    destruct (Hmem x Hx) as (Hl & Hs & d & Hcx & Hkx).
    split; [assumption|]. exists d. split; [assumption|].
    destruct (readable_content_regular x d Hcx) as [io R].
    rewrite (getsize_regular_file w x d io R) in Hs. inversion Hs.
    split; [lia|]. congruence.
Qed.

Lemma by_comparing_members l gs g :
  find_duplicate_files_by_comparing w l = Ok gs ->
  In g gs ->
  exists data, forall x, In x g -> In x l /\ exists io, regular_file w x data io.
Proof.
  rewrite by_comparing_eq. intros H.
  assert (HI : (forall x, In x [] -> In x l)
               /\ forall g, In g gs ->
                    exists data, forall x, In x g ->
                      In x l /\ exists io, regular_file w x data io).
  { apply (by_comparing_loop_invariant w
             (fun l' groups =>
                (forall x, In x l' -> In x l)
                /\ forall g, In g groups ->
                     exists data, forall x, In x g ->
                       In x l /\ exists io, regular_file w x data io))
      with (n := length l) (l := l) (groups := []); auto.
    - intros current tl groups [Hsub HI] _ grp.
      split.
      { intros x Hx. apply remove_group_In in Hx. apply Hsub. tauto. }
      destruct (1 <? length grp) eqn:Hlen; [|assumption].
      apply Nat.ltb_lt in Hlen. intros g' Hg'.
      apply in_snoc_groups in Hg'. destruct Hg' as [Hg'| ->]; [auto|].
      subst grp. cbn [length] in Hlen.
      destruct (filter (same_as w current) tl) as [|z rest] eqn:Hf;
        [simpl in Hlen; lia|].
      assert (Hall : forall x, In x (z :: rest) ->
                               In x tl /\ compare_files w current x = Ok true).
      { intros x Hx. rewrite <- Hf in Hx. apply filter_In in Hx.
        destruct Hx as [Hx Hs]. split; [assumption|].
        unfold same_as in Hs.
        destruct (compare_files w current x) as [[|]|]; congruence. }
      destruct (Hall z (or_introl eq_refl)) as [_ Hz].
      apply compare_files_true_iff in Hz.
      destruct Hz as (data & ioc & ioz & Rc & _ & _ & _).
      exists data. intros x [<-|Hx].
      + split; [apply Hsub; left; reflexivity | eauto].
      + destruct (Hall x Hx) as [Hxl Hcx].
        split; [apply Hsub; right; assumption|].
        apply compare_files_true_iff in Hcx.
        destruct Hcx as (data' & ioc' & iox & Rc' & Rx & _ & _).
        destruct (regular_file_unique w current data ioc data' ioc' Rc Rc')
          as [<- _].
        eauto.
    - split; [auto | intros g' []]. }
  apply HI.
Qed.


(** X7. The members of a group of the hash pipeline are paths of the
    input list that lead to regular files which can be opened and read,
    and they have one size, not zero, and one digest. *)
Theorem find_duplicate_files_same_digest l gs g :
  find_duplicate_files w l = Ok gs ->
  In g gs ->
  exists n digest,
    n <> 0
    /\ forall x, In x g ->
         In x l
         /\ exists data,
             readable_content w x = Some data
             /\ length data = n
             /\ md5_hexdigest w data = digest.
Proof.
  apply find_duplicate_files_members.
Qed.

(** X8. The members of a group of the comparison pipeline are paths of
    the input list that lead to regular files with one and the same
    content. *)
Theorem by_comparing_same_content l gs g :
  find_duplicate_files_by_comparing w l = Ok gs ->
  In g gs ->
  exists data, forall x, In x g -> In x l /\ exists io, regular_file w x data io.
Proof.
  apply by_comparing_members.
Qed.

(** X9. Run from [main] on a root path, neither pipeline reports a path
    that [scan_files] did not return, nor a symbolic link. *)
Theorem main_reports_scanned_files path gs :
  main_hash w path = Ok gs \/ main_compare w path = Ok gs ->
  forall g x, In g gs -> In x g ->
    In x (scan_files w path) /\ islink w x = false.
Proof.
  intros H g x Hg Hx.
  assert (Hin : In x (scan_files w path)).
  { destruct H as [H|H].
    - unfold main_hash in H.
      destruct (find_duplicate_files_members _ gs g H Hg)
        as (n & digest & _ & Hall).
      apply (Hall x Hx).
    - unfold main_compare in H.
      destruct (by_comparing_members _ gs g H Hg) as (data & Hall).
      apply (Hall x Hx). }
  split; [assumption|].
  apply scan_files_In in Hin. tauto.
Qed.

End PipelinesMore.

(* ===================================================================== *)
(** ** More on [scan_files] and on the results of the pipelines           *)
(* ===================================================================== *)

Section ScanMore.

Variable w : os.




End ScanMore.

Section ResultsMore.

Variable w : os.

Lemma compare_files_ok_stat f1 f2 b :
  compare_files w f1 f2 = Ok b ->
  (exists st, stat w f1 = Ok st) /\ (exists st, stat w f2 = Ok st).
Proof.
  intros H.
  destruct (stat w f1) as [st1|e1] eqn:S1.
  - destruct (stat w f2) as [st2|e2] eqn:S2; [eauto|].
    destruct (compare_files_stat_raise w f1 f2) as [e He];
      [right; rewrite S2; eauto | congruence].
  - destruct (compare_files_stat_raise w f1 f2) as [e He];
      [left; rewrite S1; eauto | congruence].
Qed.

(** X11. The hash pipeline returns exactly when [stat] succeeds on every
    path of the list: a path that cannot be examined makes it raise, a
    file that cannot be opened or read does not. *)
Theorem find_duplicate_files_returns_iff l :
  (exists gs, find_duplicate_files w l = Ok gs)
  <-> forall x, In x l -> exists st, stat w x = Ok st.
Proof.
  split.
  - intros [gs H] x Hx.
    destruct (stat w x) as [st|e] eqn:Hs; [eauto|].
    destruct (find_duplicate_files_raise w l x e Hx) as [e' He'].
    + unfold getsize. rewrite Hs. reflexivity.
    + congruence.
  - apply find_duplicate_files_returns.
Qed.

(** X12. The comparison pipeline returns exactly when the list has at
    most one path, which is then never examined, or [stat] succeeds on
    every path of the list. *)
Theorem by_comparing_returns_iff l :
  (exists gs, find_duplicate_files_by_comparing w l = Ok gs)
  <-> length l <= 1 \/ forall x, In x l -> exists st, stat w x = Ok st.
Proof.
  split.
  - intros [gs H]. destruct l as [|c [|f tl]]; [left; simpl; lia ..|].
    right. rewrite by_comparing_eq, by_comparing_loop_cons in H.
    destruct (compare_with w c (f :: tl) [c]) as [g|e] eqn:Hg;
      [|discriminate].
    assert (Hall : forall y, In y (f :: tl) ->
                             exists b, compare_files w c y = Ok b).
    { intros y Hy. destruct (compare_files w c y) as [b|e] eqn:Hc; [eauto|].
      destruct (compare_with_raise w c (f :: tl) [c] y e Hy Hc) as [e' He'].
      congruence. }
    intros x [<-|Hx].
    + destruct (Hall f (or_introl eq_refl)) as [b Hb].
      apply (compare_files_ok_stat _ _ _ Hb).
    + destruct (Hall x Hx) as [b Hb].
      apply (compare_files_ok_stat _ _ _ Hb).
  - intros [Hlen|Hstat].
    + destruct l as [|c [|f tl]]; [| |simpl in Hlen; lia].
      * exists []. rewrite by_comparing_eq. apply by_comparing_loop_nil.
      * exists []. rewrite by_comparing_eq, by_comparing_loop_cons.
        cbn [compare_with length Nat.ltb Nat.leb].
        unfold remove_group. cbn [filter].
        destruct (in_dec path_eq_dec c [c]) as [|Hn];
          [|exfalso; apply Hn; left; reflexivity].
        apply by_comparing_loop_nil.
    + apply find_duplicate_files_by_comparing_returns. assumption.
Qed.

(** X13. On a list of distinct paths of which no two lead to regular
    files with the same content, the comparison pipeline, when it
    returns, returns no group. *)
Theorem by_comparing_unique_files l gs :
  NoDup l ->
  find_duplicate_files_by_comparing w l = Ok gs ->
  (forall x y data io io',
      In x l -> In y l -> x <> y ->
      regular_file w x data io -> ~ regular_file w y data io') ->
  gs = [].
Proof.
  intros Hn H Huniq. destruct gs as [|g gs']; [reflexivity|]. exfalso.
  pose proof (by_comparing_two w l _ H g (or_introl eq_refl)) as Hlen.
  pose proof (by_comparing_nodup w l _ Hn H) as Hnd.
  cbn [concat] in Hnd. apply NoDup_app_remove_r in Hnd.
  destruct (by_comparing_members w l _ g H (or_introl eq_refl))
    as [data Hall].
  destruct g as [|x [|y g'']]; [simpl in Hlen; lia ..|].
  inversion Hnd as [|? ? Hx _]; subst.
  destruct (Hall x (or_introl eq_refl)) as [Hxl [io Rx]].
  destruct (Hall y (or_intror (or_introl eq_refl))) as [Hyl [io' Ry]].
  apply (Huniq x y data io io' Hxl Hyl); [|assumption|assumption].
  intros ->. apply Hx. left. reflexivity.
Qed.

(** X14. On a list of readable regular files, none of them empty, whose
    contents have different digests when they differ, the two pipelines
    put the same pairs of paths together. *)
Theorem pipelines_agree l gh gc f g :
  (forall x, In x l ->
     exists data, regular_file w x data Readable /\ data <> []) ->
  (forall x y dx dy,
      In x l -> In y l ->
      regular_file w x dx Readable -> regular_file w y dy Readable ->
      md5_hexdigest w dx = md5_hexdigest w dy -> dx = dy) ->
  (forall x dx,
      In x l -> regular_file w x dx Readable ->
      md5_hexdigest w dx <> EmptyString) ->
  find_duplicate_files w l = Ok gh ->
  find_duplicate_files_by_comparing w l = Ok gc ->
  f <> g ->
  (together gh f g <-> together gc f g).
Proof.
  intros Hreg Hinj Hne Hh Hc Hfg. split.
  - intros (grp & Hgrp & Hf & Hg).
    destruct (find_duplicate_files_members w l gh grp Hh Hgrp)
      as (n & digest & _ & Hall).
    destruct (Hall f Hf) as (Hfl & df & Cf & _ & Df).
    destruct (Hall g Hg) as (Hgl & dg & Cg & _ & Dg).
    destruct (Hreg f Hfl) as (df' & Rf & _).
    destruct (Hreg g Hgl) as (dg' & Rg & _).
    rewrite (regular_file_readable_content w f df' Rf) in Cf.
    rewrite (regular_file_readable_content w g dg' Rg) in Cg.
    inversion Cf; inversion Cg; subst df' dg'.
    assert (Heq : df = dg)
      by (apply (Hinj f g); try assumption; congruence).
    subst dg.
    apply (identical_files_together_comparing w f g df Rf Rg Hfg l gc Hc
             Hfl Hgl).
  - intros (grp & Hgrp & Hf & Hg).
    destruct (by_comparing_members w l gc grp Hc Hgrp) as (data & Hall).
    destruct (Hall f Hf) as (Hfl & iof & Rf).
    destruct (Hall g Hg) as (Hgl & iog & Rg).
    destruct (Hreg f Hfl) as (df & Rf' & Hdf).
    destruct (Hreg g Hgl) as (dg & Rg' & Hdg).
    destruct (regular_file_unique w f data iof df Readable Rf Rf') as [<- ->].
    destruct (regular_file_unique w g data iog dg Readable Rg Rg') as [<- ->].
    apply (identical_files_together_hash w f g data Rf Rg Hfg Hdf
             (Hne f data Hfl Rf) l gh Hh Hfl Hgl).
Qed.

End ResultsMore.

Section Completeness.

Variable w : os.

(** A path is a member of at most one group of the hash pipeline. *)
Lemma find_duplicate_files_occurrences l gs x :
  find_duplicate_files w l = Ok gs -> occurrences gs x <= 1.
Proof.
  intros H. apply find_duplicate_files_ok in H.
  destruct H as (sgs & parts & Hs & Hp & ->).
  rewrite group_files_by_size_eq in Hs.
  pose proof (group_files_occurrences (size_key w) l sgs x Hs) as Hocc.
  clear Hs. induction Hp as [|sg cg sgs parts Hc Hp IH];
    [unfold occurrences; simpl; lia|].
  cbn [concat]. rewrite occurrences_app. rewrite occurrences_cons in Hocc.
  assert (Hsub : forall grp, In grp cg -> In x grp -> In x sg).
  { intros grp Hgrp Hx.
    apply (group_files_member (get_file_checksum w) sg cg grp x Hc Hgrp Hx). }
  destruct (in_dec path_eq_dec x sg) as [Hin|Hout].
  - pose proof (group_files_occurrences (get_file_checksum w) sg cg x Hc).
    assert (Hz : occurrences sgs x = 0) by lia.
    rewrite (occurrences_none (concat parts) x); [lia|].
    intros grp Hgrp Hx. apply in_concat in Hgrp.
    destruct Hgrp as [cg' [Hcg' Hgrp]].
    clear IH Hocc. induction Hp as [|sg' cg'' sgs parts Hc' Hp IH];
      [contradiction|].
    rewrite occurrences_cons in Hz.
    destruct (in_dec path_eq_dec x sg') as [|Hout']; [discriminate|].
    destruct Hcg' as [->|Hcg'].
    + apply Hout'.
      apply (group_files_member (get_file_checksum w) sg' cg' grp x
               Hc' Hgrp Hx).
    + apply IH; assumption.
  - rewrite (occurrences_none cg x); [apply IH; lia|].
    intros grp Hgrp Hx. apply Hout. eapply Hsub; eassumption.
Qed.

(** X15. In the result of the hash pipeline no path is a member of two
    groups, even when the input list names it more than once. *)
Theorem find_duplicate_files_groups_disjoint l gs x :
  find_duplicate_files w l = Ok gs -> occurrences gs x <= 1.
Proof.
  apply find_duplicate_files_occurrences.
Qed.



(** X18. On a list of distinct paths of which no two lead to readable
    files of one size with one digest, the hash pipeline, when it
    returns, returns no group. *)
Theorem find_duplicate_files_unique_files l gs :
  NoDup l ->
  find_duplicate_files w l = Ok gs ->
  (forall x y dx dy,
      In x l -> In y l -> x <> y ->
      readable_content w x = Some dx -> readable_content w y = Some dy ->
      length dx = length dy ->
      md5_hexdigest w dx <> md5_hexdigest w dy) ->
  gs = [].
Proof.
  intros Hn H Huniq. destruct gs as [|g gs']; [reflexivity|]. exfalso.
  assert (Hg : In g (g :: gs')) by (left; reflexivity).
  destruct (find_duplicate_files_members w l _ g H Hg)
    as (n & digest & _ & Hall).
  destruct (find_duplicate_files_group w l _ g H Hg)
    as (sgs & sg & cg & Hs & Hsg & Hc & Hcg).
  rewrite group_files_by_size_eq in Hs.
  destruct (group_files_group (size_key w) l sgs sg Hs Hsg) as [k [Hk _]].
  destruct (group_files_group (get_file_checksum w) sg cg g Hc Hcg)
    as [k' [Hk' Hlen]].
  assert (Hnd : NoDup g).
  { rewrite Hk', Hk. apply NoDup_filter, NoDup_filter. assumption. }
  destruct g as [|x [|y g'']]; [simpl in Hlen; lia ..|].
  inversion Hnd as [|? ? Hx _]; subst.
  destruct (Hall x (or_introl eq_refl)) as (Hxl & dx & Cx & Lx & Dx).
  destruct (Hall y (or_intror (or_introl eq_refl)))
    as (Hyl & dy & Cy & Ly & Dy).
  apply (Huniq x y dx dy Hxl Hyl); try assumption; try congruence.
  intros ->. apply Hx. left. reflexivity.
Qed.

End Completeness.

(* ===================================================================== *)
(** ** The further theorems at work on the sample trees                   *)
(* ===================================================================== *)

Lemma sample_digest_injective d d' :
  sample_digest d = sample_digest d' -> d = d'.
Proof.
  unfold sample_digest. intros H. inversion H as [H'].
  rewrite <- (list_byte_of_string_of_list_byte d).
  rewrite <- (list_byte_of_string_of_list_byte d').
  rewrite H'. reflexivity.
Qed.

(** Turns a membership in an explicit list into its cases, and the
    statements on the sample tree into equations between nodes. *)
Ltac sample_cases :=
  repeat match goal with
         | H : In _ (_ :: _) |- _ => destruct H as [H|H]
         | H : In _ [] |- _ => destruct H
         | H : _ = ?x |- _ => is_var x; subst x
         | H : regular_file _ _ _ _ |- _ =>
             unfold regular_file in H; vm_compute in H
         | H : readable_content _ _ = _ |- _ => vm_compute in H
         | H : Some _ = Some _ |- _ => inversion H; clear H
         end.

Lemma group_files_is_groups_of_witness :
  group_files [c_txt; e1; a_txt; long_txt; b_txt]
    (get_file_checksum (sample_os mixed_tree))
  = Ok [[a_txt; b_txt]]
  /\ [[a_txt; b_txt]]
     = groups_of (get_file_checksum (sample_os mixed_tree))
         [c_txt; e1; a_txt; long_txt; b_txt].
Proof.
  assert (H : group_files [c_txt; e1; a_txt; long_txt; b_txt]
                (get_file_checksum (sample_os mixed_tree))
              = Ok [[a_txt; b_txt]])
    by (vm_compute; reflexivity).
  split; [exact H|].
  exact (group_files_is_groups_of (get_file_checksum (sample_os mixed_tree))
           [c_txt; e1; a_txt; long_txt; b_txt] [[a_txt; b_txt]] H).
Defined.

Lemma compare_files_transitive_witness :
  compare_files (sample_os mixed_tree) a_txt b_txt = Ok true
  /\ compare_files (sample_os mixed_tree) b_txt x_txt = Ok true
  /\ compare_files (sample_os mixed_tree) a_txt x_txt = Ok true.
Proof.
  assert (H1 : compare_files (sample_os mixed_tree) a_txt b_txt = Ok true)
    by (vm_compute; reflexivity).
  assert (H2 : compare_files (sample_os mixed_tree) b_txt x_txt = Ok true)
    by (vm_compute; reflexivity).
  split; [exact H1|]. split; [exact H2|].
  exact (proj1 (compare_files_transitive (sample_os mixed_tree)
                  a_txt b_txt x_txt H1 H2)).
Defined.

Lemma _do_compare_loop_decides_equality_witness :
  0 < 2
  /\ _do_compare_loop 2 {| unread := hello; good_reads := None |}
       {| unread := hello ++ world; good_reads := None |}
     = Ok false.
Proof.
  assert (Hb : 0 < 2) by lia.
  split; [exact Hb|].
  rewrite (_do_compare_loop_decides_equality 2
             {| unread := hello; good_reads := None |}
             {| unread := hello ++ world; good_reads := None |}
             Hb eq_refl eq_refl).
  vm_compute. reflexivity.
Defined.

Lemma find_duplicate_files_same_digest_witness :
  find_duplicate_files (sample_os mixed_tree)
    [a_txt; c_txt; locked_txt; b_txt]
  = Ok [[a_txt; b_txt]]
  /\ exists n digest,
      n <> 0
      /\ forall x, In x [a_txt; b_txt] ->
           In x [a_txt; c_txt; locked_txt; b_txt]
           /\ exists data,
               readable_content (sample_os mixed_tree) x = Some data
               /\ length data = n
               /\ md5_hexdigest (sample_os mixed_tree) data = digest.
Proof.
  assert (H : find_duplicate_files (sample_os mixed_tree)
                [a_txt; c_txt; locked_txt; b_txt] = Ok [[a_txt; b_txt]])
    by (vm_compute; reflexivity).
  split; [exact H|].
  exact (find_duplicate_files_same_digest (sample_os mixed_tree)
           [a_txt; c_txt; locked_txt; b_txt] [[a_txt; b_txt]]
           [a_txt; b_txt] H (or_introl eq_refl)).
Defined.

Lemma by_comparing_same_content_witness :
  find_duplicate_files_by_comparing (sample_os mixed_tree)
    [a_txt; c_txt; locked_txt; b_txt]
  = Ok [[a_txt; b_txt]]
  /\ exists data, forall x, In x [a_txt; b_txt] ->
       In x [a_txt; c_txt; locked_txt; b_txt]
       /\ exists io, regular_file (sample_os mixed_tree) x data io.
Proof.
  assert (H : find_duplicate_files_by_comparing (sample_os mixed_tree)
                [a_txt; c_txt; locked_txt; b_txt] = Ok [[a_txt; b_txt]])
    by (vm_compute; reflexivity).
  split; [exact H|].
  exact (by_comparing_same_content (sample_os mixed_tree)
           [a_txt; c_txt; locked_txt; b_txt] [[a_txt; b_txt]]
           [a_txt; b_txt] H (or_introl eq_refl)).
Defined.

Lemma main_reports_scanned_files_witness :
  main_hash (sample_os hello_tree) "d"%string = Ok [[a_txt; b_txt]]
  /\ In a_txt (scan_files (sample_os hello_tree) "d"%string)
  /\ islink (sample_os hello_tree) a_txt = false.
Proof.
  assert (H : main_hash (sample_os hello_tree) "d"%string
              = Ok [[a_txt; b_txt]])
    by (vm_compute; reflexivity).
  split; [exact H|].
  exact (main_reports_scanned_files (sample_os hello_tree) "d"%string
           [[a_txt; b_txt]] (or_introl H) [a_txt; b_txt] a_txt
           (or_introl eq_refl) (or_introl eq_refl)).
Defined.


Lemma by_comparing_unique_files_witness :
  NoDup [a_txt; c_txt; long_txt]
  /\ find_duplicate_files_by_comparing (sample_os mixed_tree)
       [a_txt; c_txt; long_txt]
     = Ok [].
Proof.
  assert (Hn : NoDup [a_txt; c_txt; long_txt]).
  { repeat constructor; simpl; intuition discriminate. }
  split; [exact Hn|].
  destruct (find_duplicate_files_by_comparing (sample_os mixed_tree)
              [a_txt; c_txt; long_txt]) as [gs|e] eqn:H;
    [|vm_compute in H; discriminate H].
  f_equal.
  apply (by_comparing_unique_files (sample_os mixed_tree)
           [a_txt; c_txt; long_txt] gs Hn H).
  intros x y data io io' Hx Hy Hne Rx Ry.
  sample_cases; try discriminate; try (apply Hne; reflexivity).
Defined.

Lemma find_duplicate_files_unique_files_witness :
  NoDup [a_txt; c_txt; long_txt]
  /\ find_duplicate_files (sample_os mixed_tree) [a_txt; c_txt; long_txt]
     = Ok [].
Proof.
  assert (Hn : NoDup [a_txt; c_txt; long_txt]).
  { repeat constructor; simpl; intuition discriminate. }
  split; [exact Hn|].
  destruct (find_duplicate_files (sample_os mixed_tree)
              [a_txt; c_txt; long_txt]) as [gs|e] eqn:H;
    [|vm_compute in H; discriminate H].
  f_equal.
  apply (find_duplicate_files_unique_files (sample_os mixed_tree)
           [a_txt; c_txt; long_txt] gs Hn H).
  intros x y dx dy Hx Hy Hne Cx Cy Hlen Hd.
  apply sample_digest_injective in Hd.
  sample_cases; try discriminate; try (apply Hne; reflexivity).
Defined.

Lemma pipelines_agree_witness :
  find_duplicate_files (sample_os mixed_tree) [a_txt; c_txt; b_txt]
  = Ok [[a_txt; b_txt]]
  /\ find_duplicate_files_by_comparing (sample_os mixed_tree)
       [a_txt; c_txt; b_txt]
     = Ok [[a_txt; b_txt]]
  /\ (together [[a_txt; b_txt]] a_txt b_txt
      <-> together [[a_txt; b_txt]] a_txt b_txt).
Proof.
  assert (Hh : find_duplicate_files (sample_os mixed_tree)
                 [a_txt; c_txt; b_txt] = Ok [[a_txt; b_txt]])
    by (vm_compute; reflexivity).
  assert (Hc : find_duplicate_files_by_comparing (sample_os mixed_tree)
                 [a_txt; c_txt; b_txt] = Ok [[a_txt; b_txt]])
    by (vm_compute; reflexivity).
  split; [exact Hh|]. split; [exact Hc|].
  apply (pipelines_agree (sample_os mixed_tree) [a_txt; c_txt; b_txt]
           [[a_txt; b_txt]] [[a_txt; b_txt]] a_txt b_txt).
  - intros x Hx. sample_cases.
    + exists hello. split; [vm_compute; reflexivity | discriminate].
    + exists world. split; [vm_compute; reflexivity | discriminate].
    + exists hello. split; [vm_compute; reflexivity | discriminate].
  - intros x y dx dy _ _ _ _ Hd. apply sample_digest_injective. exact Hd.
  - intros x dx _ _. discriminate.
  - exact Hh.
  - exact Hc.
  - discriminate.
Defined.

Lemma find_duplicate_files_groups_disjoint_witness :
  find_duplicate_files (sample_os mixed_tree) [a_txt; a_txt; b_txt; x_txt]
  = Ok [[a_txt; a_txt; b_txt; x_txt]]
  /\ occurrences [[a_txt; a_txt; b_txt; x_txt]] a_txt <= 1.
Proof.
  assert (H : find_duplicate_files (sample_os mixed_tree)
                [a_txt; a_txt; b_txt; x_txt]
              = Ok [[a_txt; a_txt; b_txt; x_txt]])
    by (vm_compute; reflexivity).
  split; [exact H|].
  exact (find_duplicate_files_groups_disjoint (sample_os mixed_tree)
           [a_txt; a_txt; b_txt; x_txt] [[a_txt; a_txt; b_txt; x_txt]]
           a_txt H).
Defined.


